(** * pnml_parser: a PNML reader and its consistency check

    Shallow embedding of [src/pnml_parser.py].  Python strings are
    modelled as [string], every character standing for a code point
    below 256.  Exceptions are values of [exn]; code that can raise or
    that acts on the [PetriNet] object runs in the monad [M]. *)

From Stdlib Require Import String Ascii List ZArith Lia Bool.
From Stdlib Require Import DecimalString.
Import ListNotations.
Open Scope string_scope.
Open Scope list_scope.

(** ** Python string primitives *)

Module PyStr.

(** [sub in s] *)
Fixpoint contains (sub s : string) : bool :=
  if prefix sub s then true
  else match s with
       | EmptyString => false
       | String _ s' => contains sub s'
       end.

Fixpoint drop (n : nat) (s : string) : string :=
  match n, s with
  | O, _ => s
  | S _, EmptyString => EmptyString
  | S n', String _ s' => drop n' s'
  end.

(** [s.split(sep, 1)]: cut at the first occurrence of [sep]. *)
Fixpoint split1 (sep s : string) : list string :=
  if prefix sep s then [EmptyString; drop (String.length sep) s]
  else match s with
       | EmptyString => [EmptyString]
       | String a s' =>
           match split1 sep s' with
           | h :: t => String a h :: t
           | [] => [String a EmptyString]
           end
       end.

(** [str.isspace] on one code point below 256. *)
Definition isspace (a : ascii) : bool :=
  let n := nat_of_ascii a in
  (((9 <=? n) && (n <=? 13)) || ((28 <=? n) && (n <=? 32))
   || (n =? 133) || (n =? 160))%nat.

Fixpoint lstrip (s : string) : string :=
  match s with
  | EmptyString => EmptyString
  | String a s' => if isspace a then lstrip s' else s
  end.

Fixpoint rstrip (s : string) : string :=
  match s with
  | EmptyString => EmptyString
  | String a s' =>
      match rstrip s' with
      | EmptyString => if isspace a then EmptyString else String a EmptyString
      | r => String a r
      end
  end.

(** [s.strip()] *)
Definition strip (s : string) : string := rstrip (lstrip s).

(** [str.lower] on one code point below 256. *)
Definition lower_char (a : ascii) : ascii :=
  let n := nat_of_ascii a in
  if (((65 <=? n) && (n <=? 90))
      || ((192 <=? n) && (n <=? 222) && negb (n =? 215)))%nat
  then ascii_of_nat (n + 32) else a.

(** [s.lower()] *)
Fixpoint lower (s : string) : string :=
  match s with
  | EmptyString => EmptyString
  | String a s' => String (lower_char a) (lower s')
  end.

(** [str(n)] for an int. *)
Definition of_Z (n : Z) : string := NilZero.string_of_int (Z.to_int n).

(** [str(n)] for a length. *)
Definition of_nat (n : nat) : string := of_Z (Z.of_nat n).

End PyStr.

(** ** The tag resolver *)

(** [strip_ns], lines 54-57.  The subscript [[1]] is read with [nth];
    [strip_ns_index_in_range] below shows that it is never out of range. *)
Definition strip_ns (tag : string) : string :=
  if PyStr.contains "}" tag
  then nth 1 (PyStr.split1 "}" tag) EmptyString
  else tag.

(** ** Exceptions and results *)

Inductive exn : Type :=
| KeyError (key : string)
| AttributeError
| ValueError (msg : string).

Inductive result (A : Type) : Type :=
| Ok (a : A)
| Raise (e : exn).
Arguments Ok {A} a.
Arguments Raise {A} e.

(** ** Data model, lines 6-27 *)

Record Place : Type := mkPlace {
  place_id : string;
  place_name : option string;
  initial_marking : Z }.

Record Transition : Type := mkTransition {
  transition_id : string;
  transition_name : option string }.

Record Arc : Type := mkArc {
  arc_id : string;
  source : string;
  target : string }.

(** A Python [dict] with string keys: entries in insertion order, one
    entry per key. *)
Definition dict (V : Type) : Type := list (string * V).

Section Dict.
Context {V : Type}.

(** [k in d] *)
Definition dict_mem (k : string) (d : dict V) : bool :=
  existsb (fun kv => String.eqb (fst kv) k) d.

(** [d.get(k)] *)
Fixpoint dict_get (k : string) (d : dict V) : option V :=
  match d with
  | [] => None
  | (k', v) :: d' => if String.eqb k' k then Some v else dict_get k d'
  end.

(** [d[k] = v]: a present key keeps its position, a new key goes last. *)
Fixpoint dict_set (k : string) (v : V) (d : dict V) : dict V :=
  match d with
  | [] => [(k, v)]
  | (k', v') :: d' =>
      if String.eqb k' k then (k', v) :: d' else (k', v') :: dict_set k v d'
  end.

(** [d.values()] *)
Definition dict_values (d : dict V) : list V := map snd d.

Definition dict_keys (d : dict V) : list string := map fst d.

End Dict.

Record PetriNet : Type := mkPetriNet {
  places : dict Place;
  transitions : dict Transition;
  arcs : list Arc }.

(** [PetriNet()], lines 24-27 *)
Definition PetriNet_init : PetriNet := mkPetriNet [] [] [].

(** ** Element trees, as [xml.etree.ElementTree] builds them *)

#[warnings="-register-all"]
Inductive Element : Type :=
| Elem (tag : string) (attrib : dict string) (text : option string)
       (children : list Element).

Definition tag (e : Element) : string :=
  match e with Elem t _ _ _ => t end.
Definition attrib (e : Element) : dict string :=
  match e with Elem _ a _ _ => a end.
Definition text (e : Element) : option string :=
  match e with Elem _ _ x _ => x end.
(** [list(e)]: the direct children. *)
Definition children (e : Element) : list Element :=
  match e with Elem _ _ _ cs => cs end.

(** [e.iter()]: the element itself, then its descendants in document
    order. *)
Fixpoint iter (e : Element) : list Element :=
  match e with
  | Elem _ _ _ cs =>
      e :: (fix iter_all (l : list Element) : list Element :=
              match l with
              | [] => []
              | c :: l' => iter c ++ iter_all l'
              end) cs
  end.

(** ** The monad of code acting on one [PetriNet] object *)

Definition M (A : Type) : Type := PetriNet -> result (A * PetriNet).

Definition ret {A} (a : A) : M A := fun self => Ok (a, self).

Definition bind {A B} (m : M A) (k : A -> M B) : M B :=
  fun self =>
    match m self with
    | Ok (a, self') => k a self'
    | Raise e => Raise e
    end.

Definition raise {A} (e : exn) : M A := fun _ => Raise e.

Definition get : M PetriNet := fun self => Ok (self, self).

Definition put (net : PetriNet) : M unit := fun _ => Ok (tt, net).

Notation "x <- m ;; k" := (bind m (fun x => k))
  (at level 61, m at next level, right associativity).
Notation "' pat <- m ;; k" := (bind m (fun x => match x with pat => k end))
  (at level 61, pat pattern, m at next level, right associativity).
Notation "m ;;; k" := (bind m (fun _ => k))
  (at level 61, right associativity).

(** [for x in l: acc = body(x, acc)] *)
Fixpoint for_fold {X A} (l : list X) (body : X -> A -> M A) (acc : A) : M A :=
  match l with
  | [] => ret acc
  | x :: l' => acc' <- body x acc ;; for_fold l' body acc'
  end.

(** [for x in l: body(x)] *)
Definition for_each {X} (l : list X) (body : X -> M unit) : M unit :=
  for_fold l (fun x _ => body x) tt.

(** [d[k]] on an attribute dictionary *)
Definition getitem (d : dict string) (k : string) : M string :=
  match dict_get k d with
  | Some v => ret v
  | None => raise (KeyError k)
  end.

(** [t.text.strip()] *)
Definition text_strip (t : Element) : M string :=
  match text t with
  | Some s => ret (PyStr.strip s)
  | None => raise AttributeError
  end.

(** ** Methods of [PetriNet], lines 29-52 *)

Definition add_place (p : Place) : M unit :=
  self <- get ;;
  if dict_mem (place_id p) (places self)
  then raise (ValueError ("Duplicate place id: " ++ place_id p))
  else put (mkPetriNet (dict_set (place_id p) p (places self))
                       (transitions self) (arcs self)).

Definition add_transition (t : Transition) : M unit :=
  self <- get ;;
  if dict_mem (transition_id t) (transitions self)
  then raise (ValueError ("Duplicate transition id: " ++ transition_id t))
  else put (mkPetriNet (places self)
                       (dict_set (transition_id t) t (transitions self))
                       (arcs self)).

Definition add_arc (a : Arc) : M unit :=
  self <- get ;;
  put (mkPetriNet (places self) (transitions self) (arcs self ++ [a])).

Definition unknown_source_msg (a : Arc) : string :=
  "Arc " ++ arc_id a ++ " has unknown source " ++ source a.

Definition unknown_target_msg (a : Arc) : string :=
  "Arc " ++ arc_id a ++ " has unknown target " ++ target a.

Definition marking_msg (p : Place) : string :=
  "Place " ++ place_id p ++ " has marking "
  ++ PyStr.of_Z (initial_marking p) ++ " (not 0/1)".

(** Body of the loop over [self.arcs], lines 44-48. *)
Definition check_arc (a : Arc) (errors : list string) : M (list string) :=
  self <- get ;;
  let errors :=
    if negb (dict_mem (source a) (places self))
       && negb (dict_mem (source a) (transitions self))
    then errors ++ [unknown_source_msg a] else errors in
  let errors :=
    if negb (dict_mem (target a) (places self))
       && negb (dict_mem (target a) (transitions self))
    then errors ++ [unknown_target_msg a] else errors in
  ret errors.

(** Body of the loop over [self.places.values()], lines 49-51. *)
Definition check_place (p : Place) (warnings : list string)
  : M (list string) :=
  if negb (Z.eqb (initial_marking p) 0 || Z.eqb (initial_marking p) 1)
  then ret (warnings ++ [marking_msg p]) else ret warnings.

Definition check_consistency : M (list string * list string) :=
  self <- get ;;
  errors <- for_fold (arcs self) check_arc [] ;;
  self <- get ;;
  warnings <- for_fold (dict_values (places self)) check_place [] ;;
  ret (errors, warnings).

(** ** The document parser, lines 59-87 *)

Section Parser.

(** Python's built-in [int] on a string: [inr n] when the string is an
    integer literal, [inl msg] when it raises [ValueError(msg)]. *)
Variable py_int : string -> string + Z.

(** [int(s)] *)
Definition int (s : string) : M Z :=
  match py_int s with
  | inr n => ret n
  | inl msg => raise (ValueError msg)
  end.

(** Lines 70-72: the loop over [c.iter()] under a "name" child. *)
Definition name_text (t : Element) (name : option string)
  : M (option string) :=
  if String.eqb (strip_ns (tag t)) "text"
  then s <- text_strip t ;; ret (Some s)
  else ret name.

(** Lines 74-76: the loop over [c.iter()] under an initial-marking
    child. *)
Definition marking_text (t : Element) (init : Z) : M Z :=
  if String.eqb (strip_ns (tag t)) "text"
  then s <- text_strip t ;; int s
  else ret init.

(** Lines 68-76: body of the loop over the children of a place. *)
Definition place_child (c : Element) (st : option string * Z)
  : M (option string * Z) :=
  let '(name, init) := st in
  name <- (if String.eqb (strip_ns (tag c)) "name"
           then for_fold (iter c) name_text name
           else ret name) ;;
  init <- (if PyStr.contains "initialmarking" (PyStr.lower (strip_ns (tag c)))
           then for_fold (iter c) marking_text init
           else ret init) ;;
  ret (name, init).

(** Lines 66-76: the name and the initial marking of a place element. *)
Definition place_fields (elem : Element) : M (option string * Z) :=
  for_fold (children elem) place_child (None, 0%Z).

(** Lines 80-83: the name of a transition element. *)
Definition transition_name_of (elem : Element) : M (option string) :=
  for_fold (iter elem) name_text None.

(** Lines 63-86: body of the loop over [root.iter()]. *)
Definition parse_elem (elem : Element) : M unit :=
  let tag := strip_ns (tag elem) in
  if String.eqb tag "place" then
    pid <- getitem (attrib elem) "id" ;;
    ' (name, init) <- place_fields elem ;;
    add_place (mkPlace pid name init)
  else if String.eqb tag "transition" then
    tid <- getitem (attrib elem) "id" ;;
    name <- transition_name_of elem ;;
    add_transition (mkTransition tid name)
  else if String.eqb tag "arc" then
    aid <- getitem (attrib elem) "id" ;;
    src <- getitem (attrib elem) "source" ;;
    tgt <- getitem (attrib elem) "target" ;;
    add_arc (mkArc aid src tgt)
  else ret tt.

(** [parse_pnml], from the root of the tree that [ET.parse] built. *)
Definition parse_pnml (root : Element) : result PetriNet :=
  match for_each (iter root) parse_elem PetriNet_init with
  | Ok (_, net) => Ok net
  | Raise e => Raise e
  end.

(** ** The report, lines 89-101; one string per [print] call *)

(** [f"{name}"] for an optional string *)
Definition format_name (name : option string) : string :=
  match name with Some s => s | None => "None" end.

Definition marked_line (p : Place) (out : list string) : M (list string) :=
  if Z.eqb (initial_marking p) 1
  then ret (out ++ [(" - " ++ place_id p ++ " ("
                     ++ format_name (place_name p) ++ ")")%string])
  else ret out.

(** [print(head, *items, sep=nl ++ "  ")] *)
Definition print_items (head : string) (items : list string) : string :=
  fold_left (fun acc x => (acc ++ String "010" "  " ++ x)%string) items head.

Definition summary : M (list string) :=
  net <- get ;;
  let out :=
    ["=== Petri Net Summary ===";
     ("Places: " ++ PyStr.of_nat (List.length (places net)))%string;
     ("Transitions: " ++ PyStr.of_nat (List.length (transitions net)))%string;
     ("Arcs: " ++ PyStr.of_nat (List.length (arcs net)))%string;
     String "010" "Places with initial marking = 1:"] in
  out <- for_fold (dict_values (places net)) marked_line out ;;
  ' (errors, warnings) <- check_consistency ;;
  let out := match errors with
             | [] => out
             | _ => out ++ [print_items (String "010" "Errors:") errors]
             end in
  let out := match warnings with
             | [] => out
             | _ => out ++ [print_items (String "010" "Warnings:") warnings]
             end in
  let out := match errors, warnings with
             | [], [] => out ++ [String "010" "No errors or warnings detected."]
             | _, _ => out
             end in
  ret out.

(** Lines 107-108: [pn = parse_pnml(...)] then [summary(pn)]; the result
    is what was printed. *)
Definition main (root : Element) : result (list string) :=
  match parse_pnml root with
  | Ok pn =>
      match summary pn with
      | Ok (out, _) => Ok out
      | Raise e => Raise e
      end
  | Raise e => Raise e
  end.

End Parser.

(** An instance of [int] for running examples: an optional sign and
    decimal digits. *)
Fixpoint digits_value (s : string) (acc : Z) : option Z :=
  match s with
  | EmptyString => Some acc
  | String a s' =>
      let n := nat_of_ascii a in
      if ((48 <=? n) && (n <=? 57))%nat
      then digits_value s' (10 * acc + Z.of_nat (n - 48))
      else None
  end.

Definition int_decimal (s : string) : string + Z :=
  let msg := ("invalid literal for int() with base 10: " ++ s)%string in
  let body (sgn : Z) (d : string) : string + Z :=
    match d with
    | EmptyString => inl msg
    | _ => match digits_value d 0 with
           | Some n => inr (sgn * n)%Z
           | None => inl msg
           end
    end in
  match PyStr.strip s with
  | String "-" d => body (-1)%Z d
  | String "+" d => body 1%Z d
  | d => body 1%Z d
  end.

(** ** Specification-side definitions *)

(** The outcome is an exception. *)
Definition fails {A} (r : result A) : Prop :=
  match r with
  | Raise _ => True
  | Ok _ => False
  end.

Definition has_tag (name : string) (e : Element) : bool :=
  String.eqb (strip_ns (tag e)) name.

Definition is_text : Element -> bool := has_tag "text".
Definition is_name : Element -> bool := has_tag "name".

(** The resolved tag contains "initialmarking", whatever the case. *)
Definition is_marking (c : Element) : bool :=
  PyStr.contains "initialmarking" (PyStr.lower (strip_ns (tag c))).

(** Number of elements of a list with a given resolved tag. *)
Definition count_tag (name : string) (l : list Element) : nat :=
  List.length (filter (has_tag name) l).

(** The proper descendants of an element, in document order. *)
Definition descendants (e : Element) : list Element :=
  flat_map iter (children e).

(** [c] is [e] or lies below it, at any depth. *)
Inductive below (e : Element) : Element -> Prop :=
| below_self : below e e
| below_child c d : below e c -> In d (children c) -> below e d.

(** The "text" elements that the place loop reads for the name: those
    at and below the direct children tagged "name". *)
Definition name_texts (e : Element) : list Element :=
  flat_map (fun c => if is_name c then filter is_text (iter c) else [])
           (children e).

(** The "text" elements that the place loop reads for the marking. *)
Definition marking_texts (e : Element) : list Element :=
  flat_map (fun c => if is_marking c then filter is_text (iter c) else [])
           (children e).

(** What one round of the name loop does when it does not raise. *)
Definition name_step (name : option string) (t : Element) : option string :=
  if is_text t
  then match text t with Some x => Some (PyStr.strip x) | None => name end
  else name.

(** A "text" element stops the name loop when it has no text. *)
Definition text_ok (t : Element) : bool :=
  if is_text t
  then match text t with Some _ => true | None => false end
  else true.

Definition transition_ok (e : Element) : bool := forallb text_ok (iter e).

(** The transition built from a transition element whose loop does not
    raise. *)
Definition transition_of (e : Element) (tid : string) : Transition :=
  mkTransition tid (fold_left name_step (iter e) None).

Section ParserSpec.
Variable py_int : string -> string + Z.

Definition marking_step (init : Z) (t : Element) : Z :=
  if is_text t
  then match text t with
       | Some x => match py_int (PyStr.strip x) with
                   | inr n => n
                   | inl _ => init
                   end
       | None => init
       end
  else init.

Definition marking_ok (t : Element) : bool :=
  if is_text t
  then match text t with
       | Some x => match py_int (PyStr.strip x) with
                   | inr _ => true
                   | inl _ => false
                   end
       | None => false
       end
  else true.

Definition place_step (st : option string * Z) (c : Element)
  : option string * Z :=
  (if is_name c then fold_left name_step (iter c) (fst st) else fst st,
   if is_marking c then fold_left marking_step (iter c) (snd st) else snd st).

Definition child_ok (c : Element) : bool :=
  (if is_name c then forallb text_ok (iter c) else true)
  && (if is_marking c then forallb marking_ok (iter c) else true).

Definition place_ok (e : Element) : bool := forallb child_ok (children e).

(** The place built from a place element whose loops do not raise. *)
Definition place_of (e : Element) (pid : string) : Place :=
  let st := fold_left place_step (children e) (None, 0%Z) in
  mkPlace pid (fst st) (snd st).

(** What a successful round did, by the resolved tag of the element. *)
Inductive round (e : Element) (s s' : PetriNet) : Prop :=
| round_place pid :
    has_tag "place" e = true ->
    dict_get "id" (attrib e) = Some pid ->
    place_ok e = true ->
    dict_mem pid (places s) = false ->
    s' = mkPetriNet (places s ++ [(pid, place_of e pid)])
                    (transitions s) (arcs s) ->
    round e s s'
| round_transition tid :
    has_tag "transition" e = true ->
    dict_get "id" (attrib e) = Some tid ->
    transition_ok e = true ->
    dict_mem tid (transitions s) = false ->
    s' = mkPetriNet (places s)
                    (transitions s ++ [(tid, transition_of e tid)])
                    (arcs s) ->
    round e s s'
| round_arc aid src tgt :
    has_tag "arc" e = true ->
    dict_get "id" (attrib e) = Some aid ->
    dict_get "source" (attrib e) = Some src ->
    dict_get "target" (attrib e) = Some tgt ->
    s' = mkPetriNet (places s) (transitions s)
                    (arcs s ++ [mkArc aid src tgt]) ->
    round e s s'
| round_other :
    has_tag "place" e = false ->
    has_tag "transition" e = false ->
    has_tag "arc" e = false ->
    s' = s ->
    round e s s'.

(** The construction defects of a document: a required attribute is
    missing, an identifier is declared twice among the places or among
    the transitions, or the text of an initial marking is not an
    integer. *)
Inductive fatal_defect (root : Element) : Prop :=
| missing_place_id e :
    In e (iter root) -> has_tag "place" e = true ->
    dict_get "id" (attrib e) = None -> fatal_defect root
| missing_transition_id e :
    In e (iter root) -> has_tag "transition" e = true ->
    dict_get "id" (attrib e) = None -> fatal_defect root
| missing_arc_attribute e k :
    In e (iter root) -> has_tag "arc" e = true ->
    In k ["id"; "source"; "target"] ->
    dict_get k (attrib e) = None -> fatal_defect root
| duplicate_place_id l1 e1 l2 e2 l3 pid :
    iter root = l1 ++ e1 :: l2 ++ e2 :: l3 ->
    has_tag "place" e1 = true -> has_tag "place" e2 = true ->
    dict_get "id" (attrib e1) = Some pid ->
    dict_get "id" (attrib e2) = Some pid -> fatal_defect root
| duplicate_transition_id l1 e1 l2 e2 l3 tid :
    iter root = l1 ++ e1 :: l2 ++ e2 :: l3 ->
    has_tag "transition" e1 = true -> has_tag "transition" e2 = true ->
    dict_get "id" (attrib e1) = Some tid ->
    dict_get "id" (attrib e2) = Some tid -> fatal_defect root
| non_integer_marking e c t x msg :
    In e (iter root) -> has_tag "place" e = true ->
    In c (children e) -> is_marking c = true ->
    In t (iter c) -> is_text t = true ->
    text t = Some x -> py_int (PyStr.strip x) = inl msg ->
    fatal_defect root.

End ParserSpec.

(** A "text" element that the parser reads has no character data. *)
Inductive empty_text (root : Element) : Prop :=
| empty_place_name e c t :
    In e (iter root) -> has_tag "place" e = true ->
    In c (children e) -> is_name c = true ->
    In t (iter c) -> is_text t = true -> text t = None ->
    empty_text root
| empty_place_marking e c t :
    In e (iter root) -> has_tag "place" e = true ->
    In c (children e) -> is_marking c = true ->
    In t (iter c) -> is_text t = true -> text t = None ->
    empty_text root
| empty_transition_text e t :
    In e (iter root) -> has_tag "transition" e = true ->
    In t (iter e) -> is_text t = true -> text t = None ->
    empty_text root.

(** Whether an identifier is declared neither as a place nor as a
    transition. *)
Definition undeclared (net : PetriNet) (k : string) : bool :=
  negb (dict_mem k (places net)) && negb (dict_mem k (transitions net)).

(** The errors that the error rule asks for one arc. *)
Definition arc_errors (net : PetriNet) (a : Arc) : list string :=
  (if undeclared net (source a) then [unknown_source_msg a] else [])
  ++ (if undeclared net (target a) then [unknown_target_msg a] else []).

(** The warnings that the warning rule asks for one place. *)
Definition place_warnings (p : Place) : list string :=
  if Z.eq_dec (initial_marking p) 0 then []
  else if Z.eq_dec (initial_marking p) 1 then []
  else [marking_msg p].

(** Running the validator twice on the same object. *)
Definition check_twice
  : M ((list string * list string) * (list string * list string)) :=
  r1 <- check_consistency ;;
  r2 <- check_consistency ;;
  ret (r1, r2).

(** ** Documents used in the scenarios *)

Definition text_elem (s : string) : Element := Elem "text" [] (Some s) [].

(** Scenario A: one place, no marking element, no arcs. *)
Definition docA : Element :=
  Elem "pnml" [] None [Elem "net" [("id", "n1")] None
    [Elem "place" [("id", "p1")] None []]].

(** Scenario B: markings 1 and 3 and an arc between the two places. *)
Definition docB : Element :=
  Elem "{http://www.pnml.org/version-2009/grammar/pnml}pnml" [] None
    [Elem "{http://www.pnml.org/version-2009/grammar/pnml}net"
       [("id", "n1")] None
       [Elem "{http://www.pnml.org/version-2009/grammar/pnml}place"
          [("id", "p1")] None
          [Elem "{http://www.pnml.org/version-2009/grammar/pnml}name" [] None
             [Elem "{http://www.pnml.org/version-2009/grammar/pnml}text" []
                (Some " start ") []];
           Elem "{http://www.pnml.org/version-2009/grammar/pnml}initialMarking"
             [] None
             [Elem "{http://www.pnml.org/version-2009/grammar/pnml}text" []
                (Some "1") []]];
        Elem "{http://www.pnml.org/version-2009/grammar/pnml}place"
          [("id", "p2")] None
          [Elem "{http://www.pnml.org/version-2009/grammar/pnml}initialMarking"
             [] None
             [Elem "{http://www.pnml.org/version-2009/grammar/pnml}text" []
                (Some "3") []]];
        Elem "{http://www.pnml.org/version-2009/grammar/pnml}arc"
          [("id", "a1"); ("source", "p1"); ("target", "p2")] None []]].

(** Scenario C: one arc, neither endpoint declared. *)
Definition docC : Element :=
  Elem "pnml" [] None
    [Elem "arc" [("id", "a1"); ("source", "p1"); ("target", "t1")] None []].

(** Scenario D: place p1 declared twice. *)
Definition docD : Element :=
  Elem "pnml" [] None
    [Elem "place" [("id", "p1")] None [];
     Elem "place" [("id", "p1")] None []].

(** A place and a transition with the same identifier. *)
Definition doc_shared_id : Element :=
  Elem "pnml" [] None
    [Elem "place" [("id", "x")] None [];
     Elem "transition" [("id", "x")] None []].

(** A place whose "name" element is not a direct child. *)
Definition place_nested_name : Element :=
  Elem "place" [("id", "p1")] None
    [Elem "toolspecific" [] None
       [Elem "name" [] None [text_elem "ready"]]].

Definition doc_nested_name : Element :=
  Elem "pnml" [] None [place_nested_name].

(** A place with a name and a marking. *)
Definition place_named : Element :=
  Elem "place" [("id", "p1")] None
    [Elem "name" [] None [text_elem " ready "];
     Elem "initialMarking" [] None [text_elem "2"]].

Definition doc_named : Element := Elem "pnml" [] None [place_named].

(** A place whose marking text is not an integer. *)
Definition doc_bad_marking : Element :=
  Elem "pnml" [] None
    [Elem "place" [("id", "p1")] None
       [Elem "initialMarking" [] None [text_elem "many"]]].

(** A transition with a "text" element that has no text. *)
Definition doc_empty_text : Element :=
  Elem "pnml" [] None
    [Elem "transition" [("id", "t1")] None
       [Elem "name" [] None [Elem "text" [] None []]]].

(** The name lookup as a search through all descendants of the place:
    whenever some "name" element below the place has a "text" element
    with text below it, the place gets the trimmed text of such an
    element as its name. *)
Definition deep_name_search (py_int : string -> string + Z) : Prop :=
  forall (e : Element) (s s' : PetriNet) (name : option string) (init : Z),
    place_fields py_int e s = Ok ((name, init), s') ->
    forall n t x,
      In n (descendants e) -> is_name n = true ->
      In t (descendants n) -> is_text t = true -> text t = Some x ->
      exists n' t' x',
        In n' (descendants e) /\ is_name n' = true /\
        In t' (descendants n') /\ is_text t' = true /\ text t' = Some x' /\
        name = Some (PyStr.strip x').

(** ** What a document declares *)

(** [elem.attrib.get("id")] *)
Definition elem_id (e : Element) : option string :=
  dict_get "id" (attrib e).

(** The arc of an arc element that has its three attributes. *)
Definition arc_of (e : Element) : option Arc :=
  match dict_get "id" (attrib e), dict_get "source" (attrib e),
        dict_get "target" (attrib e) with
  | Some aid, Some src, Some tgt => Some (mkArc aid src tgt)
  | _, _, _ => None
  end.

(** The identifier that an element declares as a place. *)
Definition place_id_of (e : Element) : list string :=
  if has_tag "place" e
  then match elem_id e with Some pid => [pid] | None => [] end
  else [].

(** The identifier that an element declares as a transition. *)
Definition transition_id_of (e : Element) : list string :=
  if has_tag "transition" e
  then match elem_id e with Some tid => [tid] | None => [] end
  else [].

Definition place_ids (l : list Element) : list string :=
  flat_map place_id_of l.

Definition transition_ids (l : list Element) : list string :=
  flat_map transition_id_of l.

Definition transition_entry (e : Element) : dict Transition :=
  map (fun tid => (tid, transition_of e tid)) (transition_id_of e).

Definition arc_entry (e : Element) : list Arc :=
  if has_tag "arc" e
  then match arc_of e with Some a => [a] | None => [] end
  else [].

Section DocumentSpec.
Variable py_int : string -> string + Z.

Definition place_entry (e : Element) : dict Place :=
  map (fun pid => (pid, place_of py_int e pid)) (place_id_of e).

(** The object after a list of elements was read into it. *)
Definition extend (s : PetriNet) (l : list Element) : PetriNet :=
  mkPetriNet (places s ++ flat_map place_entry l)
             (transitions s ++ flat_map transition_entry l)
             (arcs s ++ flat_map arc_entry l).

(** The model that a document stands for. *)
Definition model_of (root : Element) : PetriNet :=
  extend PetriNet_init (iter root).

(** The round of an element raises for no reason of its own: its
    required attributes are there and its "text" elements can be
    read. *)
Definition elem_ok (e : Element) : bool :=
  if has_tag "place" e then
    match elem_id e with Some _ => place_ok py_int e | None => false end
  else if has_tag "transition" e then
    match elem_id e with Some _ => transition_ok e | None => false end
  else if has_tag "arc" e then
    match arc_of e with Some _ => true | None => false end
  else true.

(** A document without construction defect. *)
Definition well_formed (root : Element) : Prop :=
  forallb elem_ok (iter root) = true
  /\ NoDup (place_ids (iter root))
  /\ NoDup (transition_ids (iter root)).


End DocumentSpec.

(** An identifier is a key of the place or of the transition mapping. *)
Definition declared (net : PetriNet) (k : string) : bool :=
  dict_mem k (places net) || dict_mem k (transitions net).


(** ** What the report contains *)

Definition report_header (net : PetriNet) : list string :=
  ["=== Petri Net Summary ===";
   ("Places: " ++ PyStr.of_nat (List.length (places net)))%string;
   ("Transitions: " ++ PyStr.of_nat (List.length (transitions net)))%string;
   ("Arcs: " ++ PyStr.of_nat (List.length (arcs net)))%string;
   String "010" "Places with initial marking = 1:"].

Definition marked_lines (net : PetriNet) : list string :=
  map (fun p => (" - " ++ place_id p ++ " ("
                 ++ format_name (place_name p) ++ ")")%string)
      (filter (fun p => Z.eqb (initial_marking p) 1)
              (dict_values (places net))).

Definition findings_lines (errors warnings : list string) : list string :=
  (match errors with
   | [] => []
   | _ => [print_items (String "010" "Errors:") errors]
   end)
  ++ (match warnings with
      | [] => []
      | _ => [print_items (String "010" "Warnings:") warnings]
      end)
  ++ (match errors, warnings with
      | [], [] => [String "010" "No errors or warnings detected."]
      | _, _ => []
      end).

(** * Properties *)

(** ** The tag resolver *)

Lemma prefix_brace (b : ascii) (s : string) :
  prefix "}" (String b s) = Ascii.eqb "}" b.
Proof.
  change (prefix "}" (String b s))
    with (match ascii_dec "}" b with
          | left _ => prefix EmptyString s
          | right _ => false
          end).
  destruct (ascii_dec "}" b) as [Heq | Hne].
  - subst b. rewrite Ascii.eqb_refl. now destruct s.
  - symmetry. now apply Ascii.eqb_neq.
Qed.

Lemma contains_brace_cons (b : ascii) (s : string) :
  PyStr.contains "}" (String b s)
  = if Ascii.eqb "}" b then true else PyStr.contains "}" s.
Proof.
  change (PyStr.contains "}" (String b s))
    with (if prefix "}" (String b s) then true else PyStr.contains "}" s).
  now rewrite prefix_brace.
Qed.

Lemma split1_brace_cons (b : ascii) (s : string) :
  PyStr.split1 "}" (String b s)
  = if Ascii.eqb "}" b then [EmptyString; s]
    else match PyStr.split1 "}" s with
         | h :: t => String b h :: t
         | [] => [String b EmptyString]
         end.
Proof.
  change (PyStr.split1 "}" (String b s))
    with (if prefix "}" (String b s)
          then [EmptyString; PyStr.drop (String.length "}") (String b s)]
          else match PyStr.split1 "}" s with
               | h :: t => String b h :: t
               | [] => [String b EmptyString]
               end).
  now rewrite prefix_brace.
Qed.

Lemma split1_absent (s : string) :
  PyStr.contains "}" s = false -> PyStr.split1 "}" s = [s].
Proof.
  induction s as [| b s IH]; intros H.
  - reflexivity.
  - rewrite contains_brace_cons in H. rewrite split1_brace_cons.
    destruct (Ascii.eqb "}" b); [discriminate |].
    now rewrite (IH H).
Qed.

Lemma split1_first (u l : string) :
  PyStr.contains "}" u = false ->
  PyStr.split1 "}" (u ++ String "}" l) = [u; l].
Proof.
  induction u as [| b u IH]; intros H.
  - change (EmptyString ++ String "}" l)%string with (String "}" l).
    now rewrite split1_brace_cons, Ascii.eqb_refl.
  - rewrite contains_brace_cons in H.
    change (String b u ++ String "}" l)%string
      with (String b (u ++ String "}" l)).
    rewrite split1_brace_cons.
    destruct (Ascii.eqb "}" b); [discriminate |].
    now rewrite (IH H).
Qed.

Lemma contains_brace_app (u l : string) :
  PyStr.contains "}" (u ++ String "}" l) = true.
Proof.
  induction u as [| b u IH].
  - change (EmptyString ++ String "}" l)%string with (String "}" l).
    now rewrite contains_brace_cons, Ascii.eqb_refl.
  - change (String b u ++ String "}" l)%string
      with (String b (u ++ String "}" l)).
    rewrite contains_brace_cons. now destruct (Ascii.eqb "}" b).
Qed.

Lemma split1_present (s : string) :
  PyStr.contains "}" s = true ->
  exists u l, s = (u ++ String "}" l)%string
              /\ PyStr.contains "}" u = false
              /\ PyStr.split1 "}" s = [u; l].
Proof.
  induction s as [| b s IH]; intros H.
  - discriminate.
  - rewrite contains_brace_cons in H. rewrite split1_brace_cons.
    destruct (Ascii.eqb "}" b) eqn:Hb.
    + apply Ascii.eqb_eq in Hb. subst b.
      exists EmptyString, s. repeat split; reflexivity.
    + destruct (IH H) as (u & l & Hs & Hu & Hsplit).
      exists (String b u), l. rewrite Hsplit. repeat split.
      * simpl. now rewrite Hs.
      * rewrite contains_brace_cons, Hb. exact Hu.
Qed.

(** C9 -- [strip_ns] maps a tag [{uri}local] to [local] (the qualifier
    ends at the first closing brace), leaves a tag without a closing
    brace unchanged, and its subscript [[1]] is always in range: the
    split has two parts exactly when the tag contains a closing brace. *)
Theorem strip_ns_spec (uri local tag t : string) :
  PyStr.contains "}" uri = false ->
  PyStr.contains "}" tag = false ->
  strip_ns (String "{" uri ++ String "}" local) = local
  /\ strip_ns tag = tag
  /\ List.length (PyStr.split1 "}" t)
     = (if PyStr.contains "}" t then 2 else 1).
Proof.
  intros Huri Htag. repeat split.
  - unfold strip_ns. rewrite contains_brace_app.
    rewrite split1_first; [reflexivity |].
    rewrite contains_brace_cons. exact Huri.
  - unfold strip_ns. now rewrite Htag.
  - destruct (PyStr.contains "}" t) eqn:Ht.
    + destruct (split1_present t Ht) as (u & l & _ & _ & Hs).
      now rewrite Hs.
    + now rewrite (split1_absent t Ht).
Qed.

Lemma strip_ns_spec_witness :
  strip_ns "{http://www.pnml.org/version-2009/grammar/pnml}place" = "place"
  /\ strip_ns "arc" = "arc"
  /\ List.length (PyStr.split1 "}" "{a}b}c") = 2.
Proof.
  apply (strip_ns_spec "http://www.pnml.org/version-2009/grammar/pnml"
                       "place" "arc" "{a}b}c"); reflexivity.
Defined.

(** ** Loops in the monad *)

Lemma bind_fails_l {A B} (m : M A) (k : A -> M B) (s : PetriNet) :
  fails (m s) -> fails (bind m k s).
Proof.
  unfold bind. destruct (m s) as [[a s'] | e]; simpl; tauto.
Qed.

Lemma bind_fails_r {A B} (m : M A) (k : A -> M B) (s : PetriNet) :
  (forall a s', m s = Ok (a, s') -> fails (k a s')) -> fails (bind m k s).
Proof.
  unfold bind. intros H. destruct (m s) as [[a s'] | e]; simpl; auto.
Qed.

Lemma bind_ok {A B} (m : M A) (k : A -> M B) (s s' : PetriNet) (a : A) :
  m s = Ok (a, s') -> bind m k s = k a s'.
Proof. unfold bind. now intros ->. Qed.

Lemma bind_inv {A B} (m : M A) (k : A -> M B) (s s2 : PetriNet) (b : B) :
  bind m k s = Ok (b, s2) ->
  exists a s1, m s = Ok (a, s1) /\ k a s1 = Ok (b, s2).
Proof.
  unfold bind. destruct (m s) as [[a s1] | e]; [| discriminate].
  intros H. now exists a, s1.
Qed.

Lemma for_fold_app {X A} (l1 l2 : list X) (body : X -> A -> M A)
      (acc : A) (s : PetriNet) :
  for_fold (l1 ++ l2) body acc s
  = bind (for_fold l1 body acc) (for_fold l2 body) s.
Proof.
  revert acc s. induction l1 as [| x l1 IH]; intros acc s.
  - reflexivity.
  - simpl. unfold bind in *.
    destruct (body x acc s) as [[acc' s'] | e]; [apply IH | reflexivity].
Qed.

(** A loop whose rounds neither raise nor touch the object computes a
    left fold. *)
Lemma for_fold_pure {X A} (f : A -> X -> A) (body : X -> A -> M A)
      (l : list X) :
  (forall x, In x l -> forall acc s, body x acc s = Ok (f acc x, s)) ->
  forall acc s, for_fold l body acc s = Ok (fold_left f l acc, s).
Proof.
  induction l as [| x l IH]; intros H acc s.
  - reflexivity.
  - simpl. rewrite (bind_ok _ _ _ _ _ (H x (or_introl eq_refl) acc s)).
    apply IH. intros y Hy. apply H. now right.
Qed.

(** A round that always raises makes the whole loop raise, whatever
    happens before it. *)
Lemma for_fold_fails {X A} (body : X -> A -> M A) (l : list X) (x : X) :
  In x l -> (forall acc s, fails (body x acc s)) ->
  forall acc s, fails (for_fold l body acc s).
Proof.
  induction l as [| y l IH]; intros Hin Hx acc s.
  - destruct Hin.
  - simpl. destruct Hin as [-> | Hin].
    + apply bind_fails_l, Hx.
    + apply bind_fails_r. intros a s' _. now apply IH.
Qed.

Lemma forallb_false {X} (f : X -> bool) (l : list X) :
  forallb f l = false -> exists x, In x l /\ f x = false.
Proof.
  induction l as [| y l IH]; simpl; intros H.
  - discriminate.
  - destruct (f y) eqn:Hy.
    + destruct (IH H) as (x & Hin & Hx). exists x. auto.
    + exists y. auto.
Qed.

(** ** Dictionaries *)

Section DictFacts.
Context {V : Type}.

Lemma dict_set_absent (k : string) (v : V) (d : dict V) :
  dict_mem k d = false -> dict_set k v d = d ++ [(k, v)].
Proof.
  induction d as [| [k' v'] d IH]; simpl; intros H.
  - reflexivity.
  - apply orb_false_iff in H. destruct H as [Hk Hd].
    rewrite Hk. now rewrite (IH Hd).
Qed.

Lemma dict_mem_app (k : string) (d1 d2 : dict V) :
  dict_mem k (d1 ++ d2) = dict_mem k d1 || dict_mem k d2.
Proof. unfold dict_mem. apply existsb_app. Qed.

Lemma dict_mem_get (k : string) (d : dict V) :
  dict_mem k d = true <-> exists v, dict_get k d = Some v.
Proof.
  induction d as [| [k' v'] d IH]; simpl.
  - split; [discriminate | intros [v H]; discriminate].
  - destruct (String.eqb k' k); simpl.
    + split; eauto.
    + exact IH.
Qed.

Lemma dict_get_app_l (k : string) (v : V) (d1 d2 : dict V) :
  dict_get k d1 = Some v -> dict_get k (d1 ++ d2) = Some v.
Proof.
  induction d1 as [| [k' v'] d1 IH]; simpl; intros H.
  - discriminate.
  - destruct (String.eqb k' k); auto.
Qed.

Lemma dict_get_app_new (k : string) (v : V) (d : dict V) :
  dict_mem k d = false -> dict_get k (d ++ [(k, v)]) = Some v.
Proof.
  induction d as [| [k' v'] d IH]; simpl; intros H.
  - now rewrite String.eqb_refl.
  - apply orb_false_iff in H. destruct H as [Hk Hd].
    rewrite Hk. auto.
Qed.

End DictFacts.

(** ** The validator *)

Lemma check_arc_eq (a : Arc) (errors : list string) (s : PetriNet) :
  check_arc a errors s = Ok (errors ++ arc_errors s a, s).
Proof.
  unfold check_arc, arc_errors, undeclared, bind, get, ret.
  destruct (negb (dict_mem (source a) (places s))
            && negb (dict_mem (source a) (transitions s)));
    destruct (negb (dict_mem (target a) (places s))
              && negb (dict_mem (target a) (transitions s)));
    simpl; rewrite ?app_nil_r, <- ?app_assoc; reflexivity.
Qed.

Lemma check_place_eq (p : Place) (warnings : list string) (s : PetriNet) :
  check_place p warnings s = Ok (warnings ++ place_warnings p, s).
Proof.
  unfold check_place, place_warnings, ret.
  destruct (Z.eq_dec (initial_marking p) 0) as [H0 | H0].
  - rewrite H0. simpl. now rewrite app_nil_r.
  - apply Z.eqb_neq in H0. rewrite H0.
    destruct (Z.eq_dec (initial_marking p) 1) as [H1 | H1].
    + rewrite H1. simpl. now rewrite app_nil_r.
    + apply Z.eqb_neq in H1. now rewrite H1.
Qed.

Lemma fold_left_collect {X Y} (g : X -> list Y) (l : list X) (acc : list Y) :
  fold_left (fun acc x => acc ++ g x) l acc = acc ++ flat_map g l.
Proof.
  revert acc. induction l as [| x l IH]; intros acc; simpl.
  - now rewrite app_nil_r.
  - now rewrite IH, app_assoc.
Qed.

(** The validator returns, without raising and leaving the object as it
    was, the errors of the arcs in sequence order and the warnings of
    the places in insertion order. *)
Lemma check_consistency_eq (s : PetriNet) :
  check_consistency s
  = Ok ((flat_map (arc_errors s) (arcs s),
         flat_map place_warnings (dict_values (places s))), s).
Proof.
  unfold check_consistency.
  rewrite (bind_ok get _ s s s eq_refl).
  rewrite (bind_ok _ _ s s (flat_map (arc_errors s) (arcs s))).
  - rewrite (bind_ok get _ s s s eq_refl).
    rewrite (bind_ok _ _ s s
               (flat_map place_warnings (dict_values (places s)))).
    + reflexivity.
    + rewrite (for_fold_pure (fun acc p => acc ++ place_warnings p)).
      * now rewrite fold_left_collect.
      * intros p _ acc s0. apply check_place_eq.
  - generalize (arcs s) at 1 2. intros l.
    change (flat_map (arc_errors s) l) with ([] ++ flat_map (arc_errors s) l).
    generalize (@nil string). induction l as [| a l IH]; intros acc.
    + simpl. now rewrite app_nil_r.
    + simpl. rewrite (bind_ok _ _ _ _ _ (check_arc_eq a acc s)).
      rewrite IH. now rewrite <- app_assoc.
Qed.

(** C1 -- Error rule.  The validator's errors are, arc after arc, one
    error naming the arc and its source when the source is a key of
    neither mapping, then one error naming the arc and its target when
    the target is a key of neither mapping: zero, one or two errors per
    arc.  On the document of Scenario C the two errors both name arc
    a1. *)
Theorem arc_error_rule (py_int : string -> string + Z)
        (net : PetriNet) (a : Arc) :
  (exists warnings,
      check_consistency net
      = Ok ((flat_map (arc_errors net) (arcs net), warnings), net))
  /\ arc_errors net a
     = (if negb (dict_mem (source a) (places net))
           && negb (dict_mem (source a) (transitions net))
        then [("Arc " ++ arc_id a ++ " has unknown source " ++ source a)%string]
        else [])
       ++ (if negb (dict_mem (target a) (places net))
              && negb (dict_mem (target a) (transitions net))
           then [("Arc " ++ arc_id a ++ " has unknown target "
                  ++ target a)%string]
           else [])
  /\ List.length (arc_errors net a)
     = (if undeclared net (source a) then 1 else 0)
       + (if undeclared net (target a) then 1 else 0)
  /\ List.length (arc_errors net a) <= 2
  /\ parse_pnml py_int docC = Ok (mkPetriNet [] [] [mkArc "a1" "p1" "t1"])
  /\ check_consistency (mkPetriNet [] [] [mkArc "a1" "p1" "t1"])
     = Ok ((["Arc a1 has unknown source p1"; "Arc a1 has unknown target t1"],
            []),
           mkPetriNet [] [] [mkArc "a1" "p1" "t1"]).
Proof.
  split; [| split; [| split; [| split; [| split]]]].
  - eexists. apply check_consistency_eq.
  - reflexivity.
  - unfold arc_errors.
    destruct (undeclared net (source a)), (undeclared net (target a));
      reflexivity.
  - unfold arc_errors.
    destruct (undeclared net (source a)), (undeclared net (target a));
      simpl; lia.
  - reflexivity.
  - reflexivity.
Qed.

Lemma place_warnings_length (l : list Place) :
  List.length (flat_map place_warnings l)
  = List.length
      (filter (fun p => negb (Z.eqb (initial_marking p) 0
                              || Z.eqb (initial_marking p) 1)) l).
Proof.
  induction l as [| p l IH]; [reflexivity |].
  simpl. rewrite length_app, IH. unfold place_warnings.
  destruct (Z.eq_dec (initial_marking p) 0) as [H0 | H0].
  - now rewrite H0.
  - destruct (Z.eq_dec (initial_marking p) 1) as [H1 | H1].
    + now rewrite H1.
    + apply Z.eqb_neq in H0, H1. now rewrite H0, H1.
Qed.

(** C5 -- Warning rule.  The validator's warnings are, place after
    place, one warning naming the place and its marking when the
    marking is neither 0 nor 1, and none when it is 0 or 1; there are as
    many warnings as places with such a marking. *)
Theorem marking_warning_rule (net : PetriNet) (p : Place) :
  (exists errors,
      check_consistency net
      = Ok ((errors, flat_map place_warnings (dict_values (places net))),
            net))
  /\ (initial_marking p <> 0%Z /\ initial_marking p <> 1%Z <->
      place_warnings p
      = [("Place " ++ place_id p ++ " has marking "
          ++ PyStr.of_Z (initial_marking p) ++ " (not 0/1)")%string])
  /\ (initial_marking p = 0%Z \/ initial_marking p = 1%Z <->
      place_warnings p = [])
  /\ List.length (flat_map place_warnings (dict_values (places net)))
     = List.length
         (filter (fun q => negb (Z.eqb (initial_marking q) 0
                                 || Z.eqb (initial_marking q) 1))
                 (dict_values (places net))).
Proof.
  split; [| split; [| split]].
  - eexists. apply check_consistency_eq.
  - unfold place_warnings.
    destruct (Z.eq_dec (initial_marking p) 0) as [H0 | H0];
      [| destruct (Z.eq_dec (initial_marking p) 1) as [H1 | H1]].
    + split; [tauto | discriminate].
    + split; [tauto | discriminate].
    + split; [reflexivity | tauto].
  - unfold place_warnings.
    destruct (Z.eq_dec (initial_marking p) 0) as [H0 | H0];
      [| destruct (Z.eq_dec (initial_marking p) 1) as [H1 | H1]].
    + split; auto.
    + split; auto.
    + split; [tauto | discriminate].
  - apply place_warnings_length.
Qed.

(** C8 -- The validator leaves the model as it found it, and a second
    run on the same model returns the same ordered errors and
    warnings as the first. *)
Theorem validator_read_only (net : PetriNet) :
  exists findings,
    check_consistency net = Ok (findings, net)
    /\ check_twice net = Ok ((findings, findings), net).
Proof.
  eexists. split.
  - apply check_consistency_eq.
  - unfold check_twice.
    rewrite (bind_ok _ _ _ _ _ (check_consistency_eq net)).
    rewrite (bind_ok _ _ _ _ _ (check_consistency_eq net)).
    reflexivity.
Qed.

(** ** The loops of the parser *)

Section ParserFacts.
Variable py_int : string -> string + Z.

Lemma name_text_ok (t : Element) (name : option string) (s : PetriNet) :
  text_ok t = true -> name_text t name s = Ok (name_step name t, s).
Proof.
  unfold text_ok, name_text, name_step, text_strip, is_text, has_tag.
  destruct (String.eqb (strip_ns (tag t)) "text"); [| reflexivity].
  destruct (text t); [reflexivity | discriminate].
Qed.

Lemma name_text_bad (t : Element) (name : option string) (s : PetriNet) :
  text_ok t = false -> fails (name_text t name s).
Proof.
  unfold text_ok, name_text, text_strip, is_text, has_tag.
  destruct (String.eqb (strip_ns (tag t)) "text"); [| discriminate].
  destruct (text t); [discriminate | intros _; exact I].
Qed.

Lemma marking_text_ok (t : Element) (init : Z) (s : PetriNet) :
  marking_ok py_int t = true ->
  marking_text py_int t init s = Ok (marking_step py_int init t, s).
Proof.
  unfold marking_ok, marking_text, marking_step, text_strip, int,
    is_text, has_tag.
  destruct (String.eqb (strip_ns (tag t)) "text"); [| reflexivity].
  destruct (text t) as [x |]; [| discriminate].
  unfold bind, ret. destruct (py_int (PyStr.strip x));
    [discriminate | reflexivity].
Qed.

Lemma marking_text_bad (t : Element) (init : Z) (s : PetriNet) :
  marking_ok py_int t = false -> fails (marking_text py_int t init s).
Proof.
  unfold marking_ok, marking_text, text_strip, int, is_text, has_tag.
  destruct (String.eqb (strip_ns (tag t)) "text"); [| discriminate].
  destruct (text t) as [x |]; [| intros _; exact I].
  unfold bind, ret, raise. destruct (py_int (PyStr.strip x));
    [intros _; exact I | discriminate].
Qed.

Lemma name_loop_ok (l : list Element) (name : option string) (s : PetriNet) :
  forallb text_ok l = true ->
  for_fold l name_text name s = Ok (fold_left name_step l name, s).
Proof.
  intros H. apply for_fold_pure. intros t Ht acc s0.
  apply name_text_ok. rewrite forallb_forall in H. now apply H.
Qed.

Lemma name_loop_bad (l : list Element) (name : option string) (s : PetriNet) :
  forallb text_ok l = false -> fails (for_fold l name_text name s).
Proof.
  intros H. destruct (forallb_false _ _ H) as (t & Hin & Ht).
  apply (for_fold_fails _ _ t Hin). intros acc s0. now apply name_text_bad.
Qed.

Lemma marking_loop_ok (l : list Element) (init : Z) (s : PetriNet) :
  forallb (marking_ok py_int) l = true ->
  for_fold l (marking_text py_int) init s
  = Ok (fold_left (marking_step py_int) l init, s).
Proof.
  intros H. apply for_fold_pure. intros t Ht acc s0.
  apply marking_text_ok. rewrite forallb_forall in H. now apply H.
Qed.

Lemma marking_loop_bad (l : list Element) (init : Z) (s : PetriNet) :
  forallb (marking_ok py_int) l = false ->
  fails (for_fold l (marking_text py_int) init s).
Proof.
  intros H. destruct (forallb_false _ _ H) as (t & Hin & Ht).
  apply (for_fold_fails _ _ t Hin). intros acc s0. now apply marking_text_bad.
Qed.

Lemma place_child_ok (c : Element) (st : option string * Z) (s : PetriNet) :
  child_ok py_int c = true ->
  place_child py_int c st s = Ok (place_step py_int st c, s).
Proof.
  unfold child_ok, place_child, place_step, is_name, is_marking, has_tag.
  destruct st as [name init]. simpl fst. simpl snd.
  intros H. apply andb_true_iff in H. destruct H as [Hn Hm].
  destruct (String.eqb (strip_ns (tag c)) "name").
  - rewrite (bind_ok _ _ _ _ _ (name_loop_ok _ name s Hn)).
    destruct (PyStr.contains "initialmarking" (PyStr.lower (strip_ns (tag c)))).
    + now rewrite (bind_ok _ _ _ _ _ (marking_loop_ok _ init s Hm)).
    + reflexivity.
  - rewrite (bind_ok (ret name) _ s s name eq_refl).
    destruct (PyStr.contains "initialmarking" (PyStr.lower (strip_ns (tag c)))).
    + now rewrite (bind_ok _ _ _ _ _ (marking_loop_ok _ init s Hm)).
    + reflexivity.
Qed.

Lemma place_child_bad (c : Element) (st : option string * Z) (s : PetriNet) :
  child_ok py_int c = false -> fails (place_child py_int c st s).
Proof.
  unfold child_ok, place_child, is_name, is_marking, has_tag.
  destruct st as [name init]. intros H.
  destruct (String.eqb (strip_ns (tag c)) "name").
  - destruct (forallb text_ok (iter c)) eqn:Hn.
    + rewrite (bind_ok _ _ _ _ _ (name_loop_ok _ name s Hn)).
      simpl in H.
      destruct (PyStr.contains "initialmarking"
                               (PyStr.lower (strip_ns (tag c))));
        [| discriminate].
      apply bind_fails_l. now apply marking_loop_bad.
    + apply bind_fails_l. now apply name_loop_bad.
  - rewrite (bind_ok (ret name) _ s s name eq_refl). simpl in H.
    destruct (PyStr.contains "initialmarking"
                             (PyStr.lower (strip_ns (tag c))));
      [| discriminate].
    apply bind_fails_l. now apply marking_loop_bad.
Qed.

Lemma place_fields_ok (e : Element) (s : PetriNet) :
  place_ok py_int e = true ->
  place_fields py_int e s
  = Ok (fold_left (place_step py_int) (children e) (None, 0%Z), s).
Proof.
  intros H. apply for_fold_pure. intros c Hc acc s0.
  apply place_child_ok. unfold place_ok in H.
  rewrite forallb_forall in H. now apply H.
Qed.

Lemma place_fields_bad (e : Element) (s : PetriNet) :
  place_ok py_int e = false -> fails (place_fields py_int e s).
Proof.
  intros H. destruct (forallb_false _ _ H) as (c & Hin & Hc).
  apply (for_fold_fails _ _ c Hin). intros acc s0. now apply place_child_bad.
Qed.

Lemma transition_name_ok (e : Element) (s : PetriNet) :
  transition_ok e = true ->
  transition_name_of e s = Ok (fold_left name_step (iter e) None, s).
Proof. apply name_loop_ok. Qed.

Lemma transition_name_bad (e : Element) (s : PetriNet) :
  transition_ok e = false -> fails (transition_name_of e s).
Proof. apply name_loop_bad. Qed.

End ParserFacts.

(** ** One round of the parse loop *)

Lemma not_ok_fails {A} (r : result A) : (forall a, r <> Ok a) -> fails r.
Proof. destruct r as [a | e]; intros H; [now destruct (H a) | exact I]. Qed.

Lemma fails_not_ok {A} (r : result A) (a : A) : fails r -> r <> Ok a.
Proof. intros H ->. exact H. Qed.

Lemma has_tag_eq (name : string) (e : Element) :
  has_tag name e = true -> strip_ns (tag e) = name.
Proof. apply String.eqb_eq. Qed.

Section ParseElem.
Variable py_int : string -> string + Z.

Lemma getitem_inv (d : dict string) (k v : string) (s s' : PetriNet) :
  getitem d k s = Ok (v, s') -> dict_get k d = Some v /\ s' = s.
Proof.
  unfold getitem. destruct (dict_get k d) as [w |]; [| discriminate].
  unfold ret. intros H. now inversion H.
Qed.

Lemma add_place_inv (p : Place) (s s' : PetriNet) (u : unit) :
  add_place p s = Ok (u, s') ->
  dict_mem (place_id p) (places s) = false
  /\ s' = mkPetriNet (places s ++ [(place_id p, p)]) (transitions s) (arcs s).
Proof.
  unfold add_place, bind, get.
  destruct (dict_mem (place_id p) (places s)) eqn:Hm; [discriminate |].
  unfold put. intros H. inversion H.
  now rewrite (dict_set_absent _ _ _ Hm).
Qed.

Lemma add_transition_inv (t : Transition) (s s' : PetriNet) (u : unit) :
  add_transition t s = Ok (u, s') ->
  dict_mem (transition_id t) (transitions s) = false
  /\ s' = mkPetriNet (places s) (transitions s ++ [(transition_id t, t)])
                     (arcs s).
Proof.
  unfold add_transition, bind, get.
  destruct (dict_mem (transition_id t) (transitions s)) eqn:Hm;
    [discriminate |].
  unfold put. intros H. inversion H.
  now rewrite (dict_set_absent _ _ _ Hm).
Qed.

Lemma parse_elem_inv (e : Element) (s s' : PetriNet) (u : unit) :
  parse_elem py_int e s = Ok (u, s') -> round py_int e s s'.
Proof.
  unfold parse_elem. intros H.
  destruct (String.eqb (strip_ns (tag e)) "place") eqn:Hp.
  - apply bind_inv in H. destruct H as (pid & s1 & Hid & H).
    apply getitem_inv in Hid. destruct Hid as [Hid ->].
    destruct (place_ok py_int e) eqn:Hok.
    + rewrite (bind_ok _ _ _ _ _ (place_fields_ok py_int e s Hok)) in H.
      destruct (fold_left (place_step py_int) (children e) (None, 0%Z))
        as [name init] eqn:Hst.
      apply add_place_inv in H. simpl in H. destruct H as [Hm ->].
      apply (round_place py_int e s _ pid); auto.
      unfold place_of. now rewrite Hst.
    + exfalso. revert H. apply fails_not_ok, bind_fails_l.
      now apply place_fields_bad.
  - destruct (String.eqb (strip_ns (tag e)) "transition") eqn:Ht.
    + apply bind_inv in H. destruct H as (tid & s1 & Hid & H).
      apply getitem_inv in Hid. destruct Hid as [Hid ->].
      destruct (transition_ok e) eqn:Hok.
      * rewrite (bind_ok _ _ _ _ _ (transition_name_ok e s Hok)) in H.
        apply add_transition_inv in H. simpl in H. destruct H as [Hm ->].
        now apply (round_transition py_int e s _ tid).
      * exfalso. revert H. apply fails_not_ok, bind_fails_l.
        now apply transition_name_bad.
    + destruct (String.eqb (strip_ns (tag e)) "arc") eqn:Ha.
      * apply bind_inv in H. destruct H as (aid & s1 & Hid & H).
        apply getitem_inv in Hid. destruct Hid as [Hid ->].
        apply bind_inv in H. destruct H as (src & s1 & Hsrc & H).
        apply getitem_inv in Hsrc. destruct Hsrc as [Hsrc ->].
        apply bind_inv in H. destruct H as (tgt & s1 & Htgt & H).
        apply getitem_inv in Htgt. destruct Htgt as [Htgt ->].
        unfold add_arc, bind, get, put in H. inversion H.
        now apply (round_arc py_int e s _ aid src tgt).
      * unfold ret in H. inversion H. now apply round_other.
Qed.

(** The rounds that succeed, the other way round. *)
Lemma parse_elem_place (e : Element) (s : PetriNet) (pid : string) :
  has_tag "place" e = true ->
  dict_get "id" (attrib e) = Some pid ->
  place_ok py_int e = true ->
  dict_mem pid (places s) = false ->
  parse_elem py_int e s
  = Ok (tt, mkPetriNet (places s ++ [(pid, place_of py_int e pid)])
                       (transitions s) (arcs s)).
Proof.
  intros Hp Hid Hok Hm. unfold parse_elem, has_tag in *. rewrite Hp.
  unfold getitem. rewrite Hid.
  rewrite (bind_ok (ret pid) _ s s pid eq_refl).
  rewrite (bind_ok _ _ _ _ _ (place_fields_ok py_int e s Hok)).
  unfold place_of.
  destruct (fold_left (place_step py_int) (children e) (None, 0%Z))
    as [name init].
  unfold add_place, bind, get, put. simpl. rewrite Hm.
  now rewrite (dict_set_absent _ _ _ Hm).
Qed.

End ParseElem.

(** ** The parse loop as a whole *)

Lemma has_tag_unique (a b : string) (e : Element) :
  has_tag a e = true -> has_tag b e = true -> a = b.
Proof.
  intros Ha Hb. apply has_tag_eq in Ha, Hb. congruence.
Qed.

Lemma for_each_cons_inv {X} (body : X -> M unit) (x : X) (l : list X)
      (s s' : PetriNet) (u : unit) :
  for_each (x :: l) body s = Ok (u, s') ->
  exists s1, body x s = Ok (tt, s1) /\ for_each l body s1 = Ok (u, s').
Proof.
  unfold for_each. simpl. intros H. apply bind_inv in H.
  destruct H as ([] & s1 & Hx & Hl). now exists s1.
Qed.

Lemma for_each_app_inv {X} (body : X -> M unit) (l1 l2 : list X)
      (s s' : PetriNet) (u : unit) :
  for_each (l1 ++ l2) body s = Ok (u, s') ->
  exists s1, for_each l1 body s = Ok (tt, s1)
             /\ for_each l2 body s1 = Ok (u, s').
Proof.
  unfold for_each. rewrite for_fold_app. intros H. apply bind_inv in H.
  destruct H as ([] & s1 & H1 & H2). now exists s1.
Qed.

Section ParseLoop.
Variable py_int : string -> string + Z.

Lemma parse_pnml_ok (root : Element) (net : PetriNet) :
  parse_pnml py_int root = Ok net <->
  for_each (iter root) (parse_elem py_int) PetriNet_init = Ok (tt, net).
Proof.
  unfold parse_pnml.
  destruct (for_each (iter root) (parse_elem py_int) PetriNet_init)
    as [[[] s] | e].
  - split; intros H; inversion H; reflexivity.
  - split; discriminate.
Qed.

Lemma parse_pnml_fails (root : Element) :
  (forall net, parse_pnml py_int root <> Ok net) ->
  exists e, parse_pnml py_int root = Raise e
            /\ main py_int root = Raise e.
Proof.
  intros H. unfold main.
  destruct (parse_pnml py_int root) as [net | e].
  - now destruct (H net).
  - now exists e.
Qed.

(** Every round only adds entries, after those already there. *)
Lemma round_extends (e : Element) (s s' : PetriNet) :
  round py_int e s s' ->
  (exists d, places s' = places s ++ d)
  /\ (exists d, transitions s' = transitions s ++ d)
  /\ (exists d, arcs s' = arcs s ++ d).
Proof.
  intros [pid _ _ _ _ -> | tid _ _ _ _ -> | aid src tgt _ _ _ _ -> | _ _ _ ->];
    simpl; repeat split; eauto; exists []; now rewrite app_nil_r.
Qed.

Lemma run_extends (l : list Element) :
  forall s s' u,
    for_each l (parse_elem py_int) s = Ok (u, s') ->
    (exists d, places s' = places s ++ d)
    /\ (exists d, transitions s' = transitions s ++ d)
    /\ (exists d, arcs s' = arcs s ++ d).
Proof.
  induction l as [| x l IH]; intros s s' u H.
  - inversion H. repeat split; exists []; now rewrite app_nil_r.
  - apply for_each_cons_inv in H. destruct H as (s1 & Hx & Hl).
    apply parse_elem_inv, round_extends in Hx.
    destruct Hx as ((p1 & Hp1) & (t1 & Ht1) & (a1 & Ha1)).
    destruct (IH _ _ _ Hl) as ((p2 & Hp2) & (t2 & Ht2) & (a2 & Ha2)).
    repeat split.
    + exists (p1 ++ p2). now rewrite Hp2, Hp1, app_assoc.
    + exists (t1 ++ t2). now rewrite Ht2, Ht1, app_assoc.
    + exists (a1 ++ a2). now rewrite Ha2, Ha1, app_assoc.
Qed.

(** In a parse that succeeds every element had a round that
    succeeded. *)
Lemma run_round (l : list Element) (e : Element) :
  In e l ->
  forall s s' u,
    for_each l (parse_elem py_int) s = Ok (u, s') ->
    exists s1 s2, round py_int e s1 s2.
Proof.
  induction l as [| x l IH]; intros Hin s s' u H.
  - destruct Hin.
  - apply for_each_cons_inv in H. destruct H as (s1 & Hx & Hl).
    destruct Hin as [-> | Hin].
    + exists s, s1. now apply parse_elem_inv in Hx.
    + now apply (IH Hin s1 s' u).
Qed.

Lemma round_counts (e : Element) (s s' : PetriNet) :
  round py_int e s s' ->
  List.length (places s')
  = List.length (places s) + count_tag "place" [e]
  /\ List.length (transitions s')
     = List.length (transitions s) + count_tag "transition" [e]
  /\ List.length (arcs s')
     = List.length (arcs s) + count_tag "arc" [e].
Proof.
  unfold count_tag.
  intros [pid Hp _ _ _ -> | tid Ht _ _ _ -> | aid src tgt Ha _ _ _ ->
          | Hp Ht Ha ->]; simpl.
  - rewrite Hp.
    destruct (has_tag "transition" e) eqn:Ht;
      [discriminate (has_tag_unique _ _ _ Hp Ht) |].
    destruct (has_tag "arc" e) eqn:Ha;
      [discriminate (has_tag_unique _ _ _ Hp Ha) |].
    rewrite length_app. simpl. lia.
  - rewrite Ht.
    destruct (has_tag "place" e) eqn:Hp;
      [discriminate (has_tag_unique _ _ _ Hp Ht) |].
    destruct (has_tag "arc" e) eqn:Ha;
      [discriminate (has_tag_unique _ _ _ Ht Ha) |].
    rewrite length_app. simpl. lia.
  - rewrite Ha.
    destruct (has_tag "place" e) eqn:Hp;
      [discriminate (has_tag_unique _ _ _ Hp Ha) |].
    destruct (has_tag "transition" e) eqn:Ht;
      [discriminate (has_tag_unique _ _ _ Ht Ha) |].
    rewrite length_app. simpl. lia.
  - rewrite Hp, Ht, Ha. simpl. lia.
Qed.

Lemma count_tag_cons (name : string) (e : Element) (l : list Element) :
  count_tag name (e :: l) = count_tag name [e] + count_tag name l.
Proof.
  unfold count_tag. simpl. now destruct (has_tag name e).
Qed.

Lemma run_counts (l : list Element) :
  forall s s' u,
    for_each l (parse_elem py_int) s = Ok (u, s') ->
    List.length (places s')
    = List.length (places s) + count_tag "place" l
    /\ List.length (transitions s')
       = List.length (transitions s) + count_tag "transition" l
    /\ List.length (arcs s')
       = List.length (arcs s) + count_tag "arc" l.
Proof.
  induction l as [| x l IH]; intros s s' u H.
  - inversion H. unfold count_tag. simpl. lia.
  - apply for_each_cons_inv in H. destruct H as (s1 & Hx & Hl).
    apply parse_elem_inv, round_counts in Hx.
    apply IH in Hl.
    rewrite (count_tag_cons "place"), (count_tag_cons "transition"),
      (count_tag_cons "arc").
    lia.
Qed.

(** In a parse that succeeds every place element is in the place
    mapping, under its [id] attribute, with the name and the marking
    that its loops computed. *)
Lemma run_places (l : list Element) (e : Element) :
  In e l -> has_tag "place" e = true ->
  forall s s' u,
    for_each l (parse_elem py_int) s = Ok (u, s') ->
    exists pid,
      dict_get "id" (attrib e) = Some pid
      /\ place_ok py_int e = true
      /\ dict_get pid (places s') = Some (place_of py_int e pid).
Proof.
  intros Hin Hp.
  induction l as [| x l IH]; intros s s' u H.
  - destruct Hin.
  - apply for_each_cons_inv in H. destruct H as (s1 & Hx & Hl).
    destruct Hin as [-> | Hin].
    + apply parse_elem_inv in Hx.
      destruct (run_extends _ _ _ _ Hl) as ((d & Hd) & _).
      destruct Hx as [pid _ Hid Hok Hm -> | tid Ht _ _ _ _
                      | aid src tgt Ha _ _ _ _ | Hp' _ _ _].
      * exists pid. repeat split; auto. rewrite Hd. simpl.
        apply dict_get_app_l. now apply dict_get_app_new.
      * discriminate (has_tag_unique _ _ _ Hp Ht).
      * discriminate (has_tag_unique _ _ _ Hp Ha).
      * congruence.
    + now apply (IH Hin s1 s' u).
Qed.

End ParseLoop.

(** ** The traversal reaches every depth *)

Lemma Element_nested_ind (P : Element -> Prop) :
  (forall t a x cs, Forall P cs -> P (Elem t a x cs)) ->
  forall e, P e.
Proof.
  intros H. fix IH 1. intros [t a x cs]. apply H.
  induction cs as [| c cs IHcs]; constructor.
  - apply IH.
  - exact IHcs.
Qed.

Lemma iter_eq (e : Element) : iter e = e :: descendants e.
Proof.
  now destruct e.
Qed.

Lemma iter_self (e : Element) : In e (iter e).
Proof. rewrite iter_eq. now left. Qed.

Lemma iter_child (e c d : Element) :
  In c (children e) -> In d (iter c) -> In d (iter e).
Proof.
  intros Hc Hd. rewrite iter_eq. right. unfold descendants.
  apply in_flat_map. now exists c.
Qed.

Lemma iter_closed (root : Element) :
  forall c d, In c (iter root) -> In d (children c) -> In d (iter root).
Proof.
  induction root as [t a x cs IH] using Element_nested_ind.
  intros c d Hc Hd. rewrite iter_eq in Hc. destruct Hc as [<- | Hc].
  - apply (iter_child (Elem t a x cs) d d Hd), iter_self.
  - unfold descendants in Hc. apply in_flat_map in Hc.
    destruct Hc as (k & Hk & Hc). simpl in Hk.
    apply (iter_child (Elem t a x cs) k d Hk).
    rewrite Forall_forall in IH. now apply (IH k Hk c d).
Qed.

Lemma below_trans (a b c : Element) : below a b -> below b c -> below a c.
Proof.
  intros Hab Hbc. induction Hbc as [| c d _ IH Hd]; [exact Hab |].
  now apply (below_child a c d).
Qed.

Lemma iter_below (root e : Element) : In e (iter root) <-> below root e.
Proof.
  split.
  - revert e. induction root as [t a x cs IH] using Element_nested_ind.
    intros e He. rewrite iter_eq in He. destruct He as [<- | He].
    + apply below_self.
    + unfold descendants in He. apply in_flat_map in He.
      destruct He as (k & Hk & He). simpl in Hk.
      rewrite Forall_forall in IH.
      apply (below_trans _ k).
      * apply (below_child _ (Elem t a x cs)); [apply below_self | exact Hk].
      * now apply IH.
  - intros H. induction H as [| c d _ IH Hd].
    + apply iter_self.
    + now apply (iter_closed root c d).
Qed.

(** C7 -- When the parse succeeds, the place mapping has as many
    entries as the document has elements with resolved tag "place", the
    transition mapping as many as it has "transition" elements and the
    arc sequence as many as it has "arc" elements, the elements counted
    being the root and everything below it at any depth. *)
Theorem parse_counts (py_int : string -> string + Z)
        (root : Element) (net : PetriNet) :
  parse_pnml py_int root = Ok net ->
  List.length (places net) = count_tag "place" (iter root)
  /\ List.length (transitions net) = count_tag "transition" (iter root)
  /\ List.length (arcs net) = count_tag "arc" (iter root)
  /\ (forall e, below root e <-> In e (iter root)).
Proof.
  intros H. apply parse_pnml_ok in H. apply run_counts in H.
  simpl in H. destruct H as (Hp & Ht & Ha).
  repeat split; auto; apply iter_below.
Qed.

Lemma parse_counts_witness :
  exists net,
    parse_pnml int_decimal docB = Ok net
    /\ List.length (places net) = 2
    /\ List.length (transitions net) = 0
    /\ List.length (arcs net) = 1.
Proof.
  eexists. split; [reflexivity |].
  pose proof (parse_counts int_decimal docB _ eq_refl) as (Hp & Ht & Ha & _).
  split; [exact Hp | split; [exact Ht | exact Ha]].
Defined.

(** ** Documents that cannot be parsed *)

Lemma dict_mem_new {V} (k : string) (v : V) (d : dict V) :
  dict_mem k (d ++ [(k, v)]) = true.
Proof.
  rewrite dict_mem_app. simpl. rewrite String.eqb_refl.
  now rewrite orb_true_r.
Qed.

Section Defects.
Variable py_int : string -> string + Z.

Lemma missing_place_id_round (e : Element) (s s' : PetriNet) :
  has_tag "place" e = true -> dict_get "id" (attrib e) = None ->
  ~ round py_int e s s'.
Proof.
  intros Hp Hid [pid _ Hid' _ _ _ | tid Ht _ _ _ _ | aid src tgt Ha _ _ _ _
                 | Hp' _ _ _].
  - congruence.
  - discriminate (has_tag_unique _ _ _ Hp Ht).
  - discriminate (has_tag_unique _ _ _ Hp Ha).
  - congruence.
Qed.

Lemma missing_transition_id_round (e : Element) (s s' : PetriNet) :
  has_tag "transition" e = true -> dict_get "id" (attrib e) = None ->
  ~ round py_int e s s'.
Proof.
  intros Ht Hid [pid Hp _ _ _ _ | tid _ Hid' _ _ _ | aid src tgt Ha _ _ _ _
                 | _ Ht' _ _].
  - discriminate (has_tag_unique _ _ _ Hp Ht).
  - congruence.
  - discriminate (has_tag_unique _ _ _ Ht Ha).
  - congruence.
Qed.

Lemma missing_arc_attribute_round (e : Element) (k : string)
      (s s' : PetriNet) :
  has_tag "arc" e = true -> In k ["id"; "source"; "target"] ->
  dict_get k (attrib e) = None -> ~ round py_int e s s'.
Proof.
  intros Ha Hk Hnone [pid Hp _ _ _ _ | tid Ht _ _ _ _
                      | aid src tgt _ Hid Hsrc Htgt _ | _ _ Ha' _].
  - discriminate (has_tag_unique _ _ _ Hp Ha).
  - discriminate (has_tag_unique _ _ _ Ht Ha).
  - destruct Hk as [<- | [<- | [<- | []]]]; congruence.
  - congruence.
Qed.

Lemma bad_marking_round (e c t : Element) (s s' : PetriNet) :
  has_tag "place" e = true ->
  In c (children e) -> is_marking c = true ->
  In t (iter c) -> marking_ok py_int t = false ->
  ~ round py_int e s s'.
Proof.
  intros Hp Hc Hm Ht Hbad
         [pid _ _ Hok _ _ | tid Ht' _ _ _ _ | aid src tgt Ha _ _ _ _
          | Hp' _ _ _].
  - unfold place_ok in Hok. rewrite forallb_forall in Hok.
    specialize (Hok c Hc). unfold child_ok in Hok. rewrite Hm in Hok.
    apply andb_true_iff in Hok. destruct Hok as [_ Hok].
    rewrite forallb_forall in Hok. specialize (Hok t Ht). congruence.
  - discriminate (has_tag_unique _ _ _ Hp Ht').
  - discriminate (has_tag_unique _ _ _ Hp Ha).
  - congruence.
Qed.

Lemma bad_name_round (e c t : Element) (s s' : PetriNet) :
  has_tag "place" e = true ->
  In c (children e) -> is_name c = true ->
  In t (iter c) -> text_ok t = false ->
  ~ round py_int e s s'.
Proof.
  intros Hp Hc Hn Ht Hbad
         [pid _ _ Hok _ _ | tid Ht' _ _ _ _ | aid src tgt Ha _ _ _ _
          | Hp' _ _ _].
  - unfold place_ok in Hok. rewrite forallb_forall in Hok.
    specialize (Hok c Hc). unfold child_ok in Hok. rewrite Hn in Hok.
    apply andb_true_iff in Hok. destruct Hok as [Hok _].
    rewrite forallb_forall in Hok. specialize (Hok t Ht). congruence.
  - discriminate (has_tag_unique _ _ _ Hp Ht').
  - discriminate (has_tag_unique _ _ _ Hp Ha).
  - congruence.
Qed.

Lemma bad_transition_round (e t : Element) (s s' : PetriNet) :
  has_tag "transition" e = true ->
  In t (iter e) -> text_ok t = false ->
  ~ round py_int e s s'.
Proof.
  intros Htr Ht Hbad
         [pid Hp _ _ _ _ | tid _ _ Hok _ _ | aid src tgt Ha _ _ _ _
          | _ Ht' _ _].
  - discriminate (has_tag_unique _ _ _ Hp Htr).
  - unfold transition_ok in Hok. rewrite forallb_forall in Hok.
    specialize (Hok t Ht). congruence.
  - discriminate (has_tag_unique _ _ _ Htr Ha).
  - congruence.
Qed.

(** An element none of whose rounds can succeed stops the parse. *)
Lemma stuck_element (root e : Element) :
  In e (iter root) -> (forall s s', ~ round py_int e s s') ->
  forall net, parse_pnml py_int root <> Ok net.
Proof.
  intros Hin Hstuck net H. apply parse_pnml_ok in H.
  destruct (run_round py_int _ e Hin _ _ _ H) as (s1 & s2 & Hr).
  exact (Hstuck s1 s2 Hr).
Qed.

Lemma round_place_mem (e : Element) (pid : string) (s s' : PetriNet) :
  has_tag "place" e = true -> dict_get "id" (attrib e) = Some pid ->
  round py_int e s s' ->
  dict_mem pid (places s) = false /\ dict_mem pid (places s') = true.
Proof.
  intros Hp Hid [pid' _ Hid' _ Hm -> | tid Ht _ _ _ _
                 | aid src tgt Ha _ _ _ _ | Hp' _ _ _].
  - assert (pid' = pid) as -> by congruence.
    split; [exact Hm | apply dict_mem_new].
  - discriminate (has_tag_unique _ _ _ Hp Ht).
  - discriminate (has_tag_unique _ _ _ Hp Ha).
  - congruence.
Qed.

Lemma round_transition_mem (e : Element) (tid : string) (s s' : PetriNet) :
  has_tag "transition" e = true -> dict_get "id" (attrib e) = Some tid ->
  round py_int e s s' ->
  dict_mem tid (transitions s) = false
  /\ dict_mem tid (transitions s') = true.
Proof.
  intros Ht Hid [pid Hp _ _ _ _ | tid' _ Hid' _ Hm ->
                 | aid src tgt Ha _ _ _ _ | _ Ht' _ _].
  - discriminate (has_tag_unique _ _ _ Hp Ht).
  - assert (tid' = tid) as -> by congruence.
    split; [exact Hm | apply dict_mem_new].
  - discriminate (has_tag_unique _ _ _ Ht Ha).
  - congruence.
Qed.

Lemma duplicate_place_stops (root : Element) l1 e1 l2 e2 l3 pid :
  iter root = l1 ++ e1 :: l2 ++ e2 :: l3 ->
  has_tag "place" e1 = true -> has_tag "place" e2 = true ->
  dict_get "id" (attrib e1) = Some pid ->
  dict_get "id" (attrib e2) = Some pid ->
  forall net, parse_pnml py_int root <> Ok net.
Proof.
  intros Hiter Hp1 Hp2 Hid1 Hid2 net H.
  apply parse_pnml_ok in H. rewrite Hiter in H.
  apply for_each_app_inv in H. destruct H as (s1 & _ & H).
  apply for_each_cons_inv in H. destruct H as (s2 & Hr1 & H).
  apply for_each_app_inv in H. destruct H as (s3 & Hl2 & H).
  apply for_each_cons_inv in H. destruct H as (s4 & Hr2 & _).
  apply parse_elem_inv in Hr1, Hr2.
  destruct (round_place_mem _ _ _ _ Hp1 Hid1 Hr1) as [_ Hin].
  destruct (round_place_mem _ _ _ _ Hp2 Hid2 Hr2) as [Hout _].
  destruct (run_extends py_int _ _ _ _ Hl2) as ((d & Hd) & _).
  rewrite Hd, dict_mem_app, Hin in Hout. discriminate.
Qed.

Lemma duplicate_transition_stops (root : Element) l1 e1 l2 e2 l3 tid :
  iter root = l1 ++ e1 :: l2 ++ e2 :: l3 ->
  has_tag "transition" e1 = true -> has_tag "transition" e2 = true ->
  dict_get "id" (attrib e1) = Some tid ->
  dict_get "id" (attrib e2) = Some tid ->
  forall net, parse_pnml py_int root <> Ok net.
Proof.
  intros Hiter Ht1 Ht2 Hid1 Hid2 net H.
  apply parse_pnml_ok in H. rewrite Hiter in H.
  apply for_each_app_inv in H. destruct H as (s1 & _ & H).
  apply for_each_cons_inv in H. destruct H as (s2 & Hr1 & H).
  apply for_each_app_inv in H. destruct H as (s3 & Hl2 & H).
  apply for_each_cons_inv in H. destruct H as (s4 & Hr2 & _).
  apply parse_elem_inv in Hr1, Hr2.
  destruct (round_transition_mem _ _ _ _ Ht1 Hid1 Hr1) as [_ Hin].
  destruct (round_transition_mem _ _ _ _ Ht2 Hid2 Hr2) as [Hout _].
  destruct (run_extends py_int _ _ _ _ Hl2) as (_ & (d & Hd) & _).
  rewrite Hd, dict_mem_app, Hin in Hout. discriminate.
Qed.

Lemma non_integer_not_ok (t : Element) (x msg : string) :
  is_text t = true -> text t = Some x ->
  py_int (PyStr.strip x) = inl msg -> marking_ok py_int t = false.
Proof.
  intros Ht Hx Hint. unfold marking_ok. now rewrite Ht, Hx, Hint.
Qed.

Lemma no_text_not_ok (t : Element) :
  is_text t = true -> text t = None ->
  text_ok t = false /\ marking_ok py_int t = false.
Proof.
  intros Ht Hx. unfold text_ok, marking_ok. now rewrite Ht, Hx.
Qed.

End Defects.

(** C3 -- Adding a place whose identifier is already a key of the place
    mapping raises, and so does adding such a transition, while the test
    never looks at the other mapping: a document that declares an
    identifier twice among its places, or twice among its transitions,
    is not parsed, and a document with a place and a transition of the
    same identifier is. *)
Theorem duplicate_identifiers (py_int : string -> string + Z) :
  (forall p s,
      add_place p s
      = if dict_mem (place_id p) (places s)
        then Raise (ValueError ("Duplicate place id: " ++ place_id p))
        else Ok (tt, mkPetriNet (places s ++ [(place_id p, p)])
                                (transitions s) (arcs s)))
  /\ (forall t s,
         add_transition t s
         = if dict_mem (transition_id t) (transitions s)
           then Raise (ValueError ("Duplicate transition id: "
                                   ++ transition_id t))
           else Ok (tt, mkPetriNet (places s)
                                   (transitions s ++ [(transition_id t, t)])
                                   (arcs s)))
  /\ (forall root l1 e1 l2 e2 l3 pid,
         iter root = l1 ++ e1 :: l2 ++ e2 :: l3 ->
         has_tag "place" e1 = true -> has_tag "place" e2 = true ->
         dict_get "id" (attrib e1) = Some pid ->
         dict_get "id" (attrib e2) = Some pid ->
         exists ex, parse_pnml py_int root = Raise ex
                    /\ main py_int root = Raise ex)
  /\ (forall root l1 e1 l2 e2 l3 tid,
         iter root = l1 ++ e1 :: l2 ++ e2 :: l3 ->
         has_tag "transition" e1 = true -> has_tag "transition" e2 = true ->
         dict_get "id" (attrib e1) = Some tid ->
         dict_get "id" (attrib e2) = Some tid ->
         exists ex, parse_pnml py_int root = Raise ex
                    /\ main py_int root = Raise ex)
  /\ parse_pnml py_int doc_shared_id
     = Ok (mkPetriNet [("x", mkPlace "x" None 0)]
                      [("x", mkTransition "x" None)] []).
Proof.
  split; [| split; [| split; [| split]]].
  - intros p s. unfold add_place, bind, get, put, raise.
    destruct (dict_mem (place_id p) (places s)) eqn:Hm; [reflexivity |].
    now rewrite (dict_set_absent _ _ _ Hm).
  - intros t s. unfold add_transition, bind, get, put, raise.
    destruct (dict_mem (transition_id t) (transitions s)) eqn:Hm;
      [reflexivity |].
    now rewrite (dict_set_absent _ _ _ Hm).
  - intros root l1 e1 l2 e2 l3 pid Hiter Hp1 Hp2 Hid1 Hid2.
    apply parse_pnml_fails.
    exact (duplicate_place_stops py_int root l1 e1 l2 e2 l3 pid
                                 Hiter Hp1 Hp2 Hid1 Hid2).
  - intros root l1 e1 l2 e2 l3 tid Hiter Ht1 Ht2 Hid1 Hid2.
    apply parse_pnml_fails.
    exact (duplicate_transition_stops py_int root l1 e1 l2 e2 l3 tid
                                      Hiter Ht1 Ht2 Hid1 Hid2).
  - reflexivity.
Qed.

Lemma duplicate_identifiers_witness :
  exists ex, parse_pnml int_decimal docD = Raise ex
             /\ main int_decimal docD = Raise ex.
Proof.
  destruct (duplicate_identifiers int_decimal) as (_ & _ & Hdup & _).
  apply (Hdup docD
              [Elem "pnml" [] None
                 [Elem "place" [("id", "p1")] None [];
                  Elem "place" [("id", "p1")] None []]]
              (Elem "place" [("id", "p1")] None [])
              []
              (Elem "place" [("id", "p1")] None [])
              [] "p1"); reflexivity.
Defined.

(** C4 -- A document with a construction defect (a place or a
    transition without [id], an arc without [id], [source] or [target],
    an identifier declared twice among the places or among the
    transitions, an initial-marking text that is not an integer) makes
    the parse raise: no model is returned and the report is never
    produced.  Scenario D raises on the second declaration of p1. *)
Theorem fatal_defects_abort (py_int : string -> string + Z)
        (root : Element) :
  fatal_defect py_int root ->
  (exists ex, parse_pnml py_int root = Raise ex
              /\ main py_int root = Raise ex)
  /\ parse_pnml py_int docD = Raise (ValueError "Duplicate place id: p1")
  /\ main py_int docD = Raise (ValueError "Duplicate place id: p1").
Proof.
  intros Hdefect. split; [| split; reflexivity].
  apply parse_pnml_fails.
  destruct Hdefect as [e Hin Hp Hid | e Hin Ht Hid | e k Hin Ha Hk Hnone
                       | l1 e1 l2 e2 l3 pid Hiter Hp1 Hp2 Hid1 Hid2
                       | l1 e1 l2 e2 l3 tid Hiter Ht1 Ht2 Hid1 Hid2
                       | e c t x msg Hin Hp Hc Hm Ht Htext Hx Hint].
  - apply (stuck_element py_int root e Hin). intros s s'.
    now apply missing_place_id_round.
  - apply (stuck_element py_int root e Hin). intros s s'.
    now apply missing_transition_id_round.
  - apply (stuck_element py_int root e Hin). intros s s'.
    now apply (missing_arc_attribute_round py_int e k).
  - exact (duplicate_place_stops py_int root l1 e1 l2 e2 l3 pid
                                 Hiter Hp1 Hp2 Hid1 Hid2).
  - exact (duplicate_transition_stops py_int root l1 e1 l2 e2 l3 tid
                                      Hiter Ht1 Ht2 Hid1 Hid2).
  - apply (stuck_element py_int root e Hin). intros s s'.
    apply (bad_marking_round py_int e c t); auto.
    now apply (non_integer_not_ok py_int t x msg).
Qed.

Lemma fatal_defects_abort_witness :
  exists ex, parse_pnml int_decimal doc_bad_marking = Raise ex
             /\ main int_decimal doc_bad_marking = Raise ex.
Proof.
  apply (fatal_defects_abort int_decimal doc_bad_marking).
  apply (non_integer_marking int_decimal doc_bad_marking
           (Elem "place" [("id", "p1")] None
              [Elem "initialMarking" [] None [text_elem "many"]])
           (Elem "initialMarking" [] None [text_elem "many"])
           (text_elem "many") "many"
           "invalid literal for int() with base 10: many");
    try reflexivity; simpl; auto.
Defined.

(** C10 -- A "text" element without character data under a "name"
    child of a place, under an initial-marking child of a place or
    anywhere below a transition makes the parse raise; the name or the
    marking is not taken as absent.  So a parse that succeeds met no
    such element. *)
Theorem empty_text_raises (py_int : string -> string + Z)
        (root : Element) :
  empty_text root ->
  (exists ex, parse_pnml py_int root = Raise ex
              /\ main py_int root = Raise ex)
  /\ parse_pnml py_int doc_empty_text = Raise AttributeError.
Proof.
  intros Hempty. split; [| reflexivity].
  apply parse_pnml_fails.
  destruct Hempty as [e c t Hin Hp Hc Hn Ht Htext Hx
                     | e c t Hin Hp Hc Hm Ht Htext Hx
                     | e t Hin Htr Ht Htext Hx];
    apply (stuck_element py_int root e Hin); intros s s';
    destruct (no_text_not_ok py_int t Htext Hx) as [Hbad1 Hbad2].
  - now apply (bad_name_round py_int e c t).
  - now apply (bad_marking_round py_int e c t).
  - now apply (bad_transition_round py_int e t).
Qed.

Lemma empty_text_raises_witness :
  exists ex, parse_pnml int_decimal doc_empty_text = Raise ex
             /\ main int_decimal doc_empty_text = Raise ex.
Proof.
  apply (empty_text_raises int_decimal doc_empty_text).
  apply (empty_transition_text doc_empty_text
           (Elem "transition" [("id", "t1")] None
              [Elem "name" [] None [Elem "text" [] None []]])
           (Elem "text" [] None []));
    try reflexivity; simpl; auto.
Defined.

(** ** The name and the marking of a place *)

Lemma fold_name_step_filter (l : list Element) :
  forall name,
    fold_left name_step l name = fold_left name_step (filter is_text l) name.
Proof.
  induction l as [| t l IH]; intros name; [reflexivity |].
  simpl. destruct (is_text t) eqn:Ht.
  - simpl. apply IH.
  - rewrite <- IH. unfold name_step at 2. now rewrite Ht.
Qed.

Lemma fold_name_step_last (ts : list Element) (t : Element) (x : string)
      (name : option string) :
  is_text t = true -> text t = Some x ->
  fold_left name_step (ts ++ [t]) name = Some (PyStr.strip x).
Proof.
  intros Ht Hx. rewrite fold_left_app. simpl.
  unfold name_step. now rewrite Ht, Hx.
Qed.

Lemma filter_flat_map {X Y} (p : Y -> bool) (g : X -> list Y) (l : list X) :
  filter p (flat_map g l) = flat_map (fun x => filter p (g x)) l.
Proof.
  induction l as [| x l IH]; [reflexivity |].
  simpl. now rewrite filter_app, IH.
Qed.

Section PlaceFields.
Variable py_int : string -> string + Z.

Lemma fold_marking_step_filter (l : list Element) :
  forall init,
    fold_left (marking_step py_int) l init
    = fold_left (marking_step py_int) (filter is_text l) init.
Proof.
  induction l as [| t l IH]; intros init; [reflexivity |].
  simpl. destruct (is_text t) eqn:Ht.
  - simpl. apply IH.
  - rewrite <- IH. unfold marking_step at 2. now rewrite Ht.
Qed.

Lemma fold_marking_step_last (ts : list Element) (t : Element) (x : string)
      (n init : Z) :
  is_text t = true -> text t = Some x -> py_int (PyStr.strip x) = inr n ->
  fold_left (marking_step py_int) (ts ++ [t]) init = n.
Proof.
  intros Ht Hx Hn. rewrite fold_left_app. simpl.
  unfold marking_step. now rewrite Ht, Hx, Hn.
Qed.

(** The two components of the place loop run side by side. *)
Lemma fold_place_step (cs : list Element) :
  forall st,
    fold_left (place_step py_int) cs st
    = (fold_left name_step
         (flat_map (fun c => if is_name c then filter is_text (iter c)
                             else []) cs) (fst st),
       fold_left (marking_step py_int)
         (flat_map (fun c => if is_marking c then filter is_text (iter c)
                             else []) cs) (snd st)).
Proof.
  induction cs as [| c cs IH]; intros [name init]; [reflexivity |].
  simpl. rewrite IH. unfold place_step. simpl.
  rewrite !fold_left_app. f_equal.
  - destruct (is_name c); [| reflexivity].
    now rewrite <- fold_name_step_filter.
  - destruct (is_marking c); [| reflexivity].
    now rewrite <- fold_marking_step_filter.
Qed.

Lemma place_of_eq (e : Element) (pid : string) :
  place_of py_int e pid
  = mkPlace pid (fold_left name_step (name_texts e) None)
            (fold_left (marking_step py_int) (marking_texts e) 0%Z).
Proof. unfold place_of. now rewrite fold_place_step. Qed.

Lemma forallb_filter_skip {X} (p q : X -> bool) (l : list X) :
  (forall x, p x = false -> q x = true) ->
  forallb q l = forallb q (filter p l).
Proof.
  intros H. induction l as [| x l IH]; [reflexivity |].
  simpl. destruct (p x) eqn:Hp.
  - simpl. now rewrite IH.
  - now rewrite (H x Hp).
Qed.

Lemma text_ok_skip (t : Element) : is_text t = false -> text_ok t = true.
Proof. intros H. unfold text_ok. now rewrite H. Qed.

Lemma marking_ok_skip (t : Element) :
  is_text t = false -> marking_ok py_int t = true.
Proof. intros H. unfold marking_ok. now rewrite H. Qed.

(** The loops of a place raise exactly when one of the "text" elements
    they read has no text or, for the marking, a text that is not an
    integer. *)
Lemma place_ok_texts (e : Element) :
  place_ok py_int e
  = forallb text_ok (name_texts e)
    && forallb (marking_ok py_int) (marking_texts e).
Proof.
  unfold place_ok, name_texts, marking_texts.
  induction (children e) as [| c cs IH]; [reflexivity |].
  simpl. rewrite IH, !forallb_app. unfold child_ok.
  rewrite (forallb_filter_skip is_text text_ok (iter c) text_ok_skip).
  rewrite (forallb_filter_skip is_text (marking_ok py_int) (iter c)
             marking_ok_skip).
  destruct (is_name c), (is_marking c); simpl;
    repeat match goal with
           | |- context [forallb ?f ?l] => destruct (forallb f l)
           end; reflexivity.
Qed.

Lemma place_fields_total (e : Element) (s : PetriNet) :
  forallb text_ok (name_texts e) = true ->
  forallb (marking_ok py_int) (marking_texts e) = true ->
  place_fields py_int e s
  = Ok ((fold_left name_step (name_texts e) None,
         fold_left (marking_step py_int) (marking_texts e) 0%Z), s).
Proof.
  intros Hn Hm. rewrite place_fields_ok.
  - now rewrite fold_place_step.
  - now rewrite place_ok_texts, Hn, Hm.
Qed.

Lemma text_of_name_text (e t : Element) :
  place_ok py_int e = true -> In t (name_texts e) ->
  is_text t = true /\ exists x, text t = Some x.
Proof.
  rewrite place_ok_texts. intros Hok Hin.
  apply andb_true_iff in Hok. destruct Hok as [Hok _].
  rewrite forallb_forall in Hok. specialize (Hok t Hin).
  unfold name_texts in Hin. apply in_flat_map in Hin.
  destruct Hin as (c & _ & Hin).
  destruct (is_name c); [| destruct Hin].
  apply filter_In in Hin. destruct Hin as [_ Ht]. split; [exact Ht |].
  unfold text_ok in Hok. rewrite Ht in Hok.
  destruct (text t) as [x |]; [now exists x | discriminate].
Qed.

Lemma text_of_marking_text (e t : Element) :
  place_ok py_int e = true -> In t (marking_texts e) ->
  is_text t = true
  /\ exists x n, text t = Some x /\ py_int (PyStr.strip x) = inr n.
Proof.
  rewrite place_ok_texts. intros Hok Hin.
  apply andb_true_iff in Hok. destruct Hok as [_ Hok].
  rewrite forallb_forall in Hok. specialize (Hok t Hin).
  unfold marking_texts in Hin. apply in_flat_map in Hin.
  destruct Hin as (c & _ & Hin).
  destruct (is_marking c); [| destruct Hin].
  apply filter_In in Hin. destruct Hin as [_ Ht]. split; [exact Ht |].
  unfold marking_ok in Hok. rewrite Ht in Hok.
  destruct (text t) as [x |]; [| discriminate].
  destruct (py_int (PyStr.strip x)) as [msg | n] eqn:Hn; [discriminate |].
  now exists x, n.
Qed.

(** What the model holds for a place element of a parsed document. *)
Lemma parsed_place (root e : Element) (net : PetriNet) :
  parse_pnml py_int root = Ok net ->
  In e (iter root) -> has_tag "place" e = true ->
  exists p,
    dict_get "id" (attrib e) = Some (place_id p)
    /\ dict_get (place_id p) (places net) = Some p
    /\ place_ok py_int e = true
    /\ place_name p = fold_left name_step (name_texts e) None
    /\ initial_marking p
       = fold_left (marking_step py_int) (marking_texts e) 0%Z.
Proof.
  intros H Hin Hp. apply parse_pnml_ok in H.
  destruct (run_places py_int _ e Hin Hp _ _ _ H) as (pid & Hid & Hok & Hget).
  exists (place_of py_int e pid). rewrite place_of_eq in *. simpl.
  repeat split; auto.
Qed.

End PlaceFields.

Lemma in_name_texts (e t : Element) :
  In t (name_texts e) <->
  exists c, In c (children e) /\ is_name c = true
            /\ In t (iter c) /\ is_text t = true.
Proof.
  unfold name_texts. rewrite in_flat_map. split.
  - intros (c & Hc & Ht). destruct (is_name c) eqn:Hn; [| destruct Ht].
    apply filter_In in Ht. exists c. tauto.
  - intros (c & Hc & Hn & Ht). exists c. rewrite Hn.
    split; [exact Hc | now apply filter_In].
Qed.

Lemma in_marking_texts (e t : Element) :
  In t (marking_texts e) <->
  exists c, In c (children e) /\ is_marking c = true
            /\ In t (iter c) /\ is_text t = true.
Proof.
  unfold marking_texts. rewrite in_flat_map. split.
  - intros (c & Hc & Ht). destruct (is_marking c) eqn:Hn; [| destruct Ht].
    apply filter_In in Ht. exists c. tauto.
  - intros (c & Hc & Hn & Ht). exists c. rewrite Hn.
    split; [exact Hc | now apply filter_In].
Qed.

(** C2, as stated, fails: a "name" element that lies deeper than the
    direct children of the place is not looked at, and the place stays
    without a name. *)
Lemma deep_name_search_fails : ~ deep_name_search int_decimal.
Proof.
  intros H.
  destruct (H place_nested_name PetriNet_init PetriNet_init None 0%Z
              eq_refl
              (Elem "name" [] None [text_elem "ready"])
              (text_elem "ready") "ready")
    as (n' & t' & x' & _ & _ & _ & _ & _ & Hname).
  - simpl. auto.
  - reflexivity.
  - simpl. auto.
  - reflexivity.
  - reflexivity.
  - discriminate Hname.
Qed.

(** C2, amended -- For a place element of a parsed document the name
    lookup reads the "text" elements at any depth below those direct
    children of the place whose resolved tag is "name": the place in
    the model has the trimmed text of the last of them as name, and no
    name when there is none.  A place without such an element does not
    make its loops raise. *)
Theorem place_name_lookup (py_int : string -> string + Z)
        (root e : Element) (net : PetriNet) :
  parse_pnml py_int root = Ok net ->
  In e (iter root) -> has_tag "place" e = true ->
  (exists p,
      dict_get "id" (attrib e) = Some (place_id p)
      /\ dict_get (place_id p) (places net) = Some p
      /\ (name_texts e = [] -> place_name p = None)
      /\ (forall ts t,
             name_texts e = ts ++ [t] ->
             exists x, text t = Some x
                       /\ place_name p = Some (PyStr.strip x)))
  /\ (forall t,
         In t (name_texts e) <->
         exists c, In c (children e) /\ is_name c = true
                   /\ In t (iter c) /\ is_text t = true)
  /\ (forall e' s,
         name_texts e' = [] ->
         forallb (marking_ok py_int) (marking_texts e') = true ->
         exists init, place_fields py_int e' s = Ok ((None, init), s)).
Proof.
  intros H Hin Hp. split; [| split].
  - destruct (parsed_place py_int root e net H Hin Hp)
      as (p & Hid & Hget & Hok & Hname & _).
    exists p. repeat split; auto.
    + intros Hnil. now rewrite Hname, Hnil.
    + intros ts t Hts.
      assert (In t (name_texts e)) as Ht
          by (rewrite Hts; apply in_or_app; right; now left).
      destruct (text_of_name_text py_int e t Hok Ht) as (Htext & x & Hx).
      exists x. split; [exact Hx |].
      rewrite Hname, Hts. now apply fold_name_step_last.
  - apply in_name_texts.
  - intros e' s Hnil Hm. eexists.
    rewrite (place_fields_total py_int e' s); [| now rewrite Hnil | exact Hm].
    now rewrite Hnil.
Qed.

Lemma place_name_lookup_witness :
  exists p,
    dict_get "id" (attrib place_named) = Some (place_id p)
    /\ dict_get (place_id p)
                (places (mkPetriNet [("p1", mkPlace "p1" (Some "ready") 2)]
                                    [] []))
       = Some p
    /\ (name_texts place_named = [] -> place_name p = None)
    /\ (forall ts t,
           name_texts place_named = ts ++ [t] ->
           exists x, text t = Some x
                     /\ place_name p = Some (PyStr.strip x)).
Proof.
  apply (place_name_lookup int_decimal doc_named place_named).
  - reflexivity.
  - simpl. auto.
  - reflexivity.
Defined.

(** C6 -- For a place element of a parsed document the marking lookup
    reads the "text" elements below those direct children of the place
    whose resolved tag contains "initialmarking", whatever the case:
    the place in the model has as initial marking the integer that the
    trimmed text of the last of them parses to, and 0 when there is
    none, in particular when no child has such a tag.  A text that is
    not an integer makes the parse raise.  In Scenario A the marking
    is 0. *)
Theorem initial_marking_lookup (py_int : string -> string + Z)
        (root e : Element) (net : PetriNet) :
  parse_pnml py_int root = Ok net ->
  In e (iter root) -> has_tag "place" e = true ->
  (exists p,
      dict_get "id" (attrib e) = Some (place_id p)
      /\ dict_get (place_id p) (places net) = Some p
      /\ (marking_texts e = [] -> initial_marking p = 0%Z)
      /\ (forall ts t,
             marking_texts e = ts ++ [t] ->
             exists x, text t = Some x
                       /\ py_int (PyStr.strip x) = inr (initial_marking p)))
  /\ (forall t,
         In t (marking_texts e) <->
         exists c, In c (children e) /\ is_marking c = true
                   /\ In t (iter c) /\ is_text t = true)
  /\ ((forall c, In c (children e) -> is_marking c = false) ->
      marking_texts e = [])
  /\ (forall root' e' c t x msg,
         In e' (iter root') -> has_tag "place" e' = true ->
         In c (children e') -> is_marking c = true ->
         In t (iter c) -> is_text t = true ->
         text t = Some x -> py_int (PyStr.strip x) = inl msg ->
         exists ex, parse_pnml py_int root' = Raise ex)
  /\ parse_pnml py_int docA
     = Ok (mkPetriNet [("p1", mkPlace "p1" None 0)] [] [])
  /\ main py_int docA
     = Ok ["=== Petri Net Summary ==="; "Places: 1"; "Transitions: 0";
           "Arcs: 0"; String "010" "Places with initial marking = 1:";
           String "010" "No errors or warnings detected."].
Proof.
  intros H Hin Hp. split; [| split; [| split; [| split; [| split]]]].
  - destruct (parsed_place py_int root e net H Hin Hp)
      as (p & Hid & Hget & Hok & _ & Hinit).
    exists p. repeat split; auto.
    + intros Hnil. now rewrite Hinit, Hnil.
    + intros ts t Hts.
      assert (In t (marking_texts e)) as Ht
          by (rewrite Hts; apply in_or_app; right; now left).
      destruct (text_of_marking_text py_int e t Hok Ht)
        as (Htext & x & n & Hx & Hn).
      exists x. split; [exact Hx |].
      rewrite Hinit, Hts.
      now rewrite (fold_marking_step_last py_int ts t x n 0%Z Htext Hx Hn).
  - apply in_marking_texts.
  - intros Hnone. unfold marking_texts.
    induction (children e) as [| c cs IH]; [reflexivity |].
    simpl. rewrite (Hnone c (or_introl eq_refl)). simpl.
    apply IH. intros c' Hc'. apply Hnone. now right.
  - intros root' e' c t x msg Hin' Hp' Hc Hm Ht Htext Hx Hint.
    destruct (parse_pnml_fails py_int root') as (ex & Hex & _);
      [| now exists ex].
    apply (stuck_element py_int root' e' Hin'). intros s s'.
    apply (bad_marking_round py_int e' c t); auto.
    now apply (non_integer_not_ok py_int t x msg).
  - reflexivity.
  - reflexivity.
Qed.

Lemma initial_marking_lookup_witness :
  exists p,
    dict_get "id" (attrib place_named) = Some (place_id p)
    /\ dict_get (place_id p)
                (places (mkPetriNet [("p1", mkPlace "p1" (Some "ready") 2)]
                                    [] []))
       = Some p
    /\ (marking_texts place_named = [] -> initial_marking p = 0%Z)
    /\ (forall ts t,
           marking_texts place_named = ts ++ [t] ->
           exists x, text t = Some x
                     /\ int_decimal (PyStr.strip x)
                        = inr (initial_marking p)).
Proof.
  apply (initial_marking_lookup int_decimal doc_named place_named).
  - reflexivity.
  - simpl. auto.
  - reflexivity.
Defined.

(** Scenario B: two places, no error, one warning for p2, and p1 alone
    in the listing of the places with marking 1. *)
Example scenario_B :
  main int_decimal docB
  = Ok ["=== Petri Net Summary ==="; "Places: 2"; "Transitions: 0";
        "Arcs: 1"; String "010" "Places with initial marking = 1:";
        " - p1 (start)";
        String "010" ("Warnings:" ++ String "010"
                      "  Place p2 has marking 3 (not 0/1)")].
Proof. reflexivity. Qed.

(** ** The string primitives on examples *)

Example strip_ns_qualified :
  strip_ns "{http://www.pnml.org/version-2009/grammar/pnml}place" = "place".
Proof. reflexivity. Qed.

Example strip_both_ends :
  PyStr.strip (String "009" " a b " ++ String "010" "") = "a b".
Proof. reflexivity. Qed.

Example lower_marking : PyStr.lower "initialMarking" = "initialmarking".
Proof. reflexivity. Qed.

Example of_Z_negative : PyStr.of_Z (-30) = "-30".
Proof. reflexivity. Qed.

Example int_decimal_signed : int_decimal " -12 " = inr (-12)%Z.
Proof. reflexivity. Qed.

(** * Further properties of the parser, the model and the report *)

(** ** The model of a document *)

Lemma dict_mem_keys {V} (k : string) (d : dict V) :
  dict_mem k d = true <-> In k (dict_keys d).
Proof.
  induction d as [| [k' v] d IH]; simpl.
  - split; [discriminate | tauto].
  - destruct (String.eqb k' k) eqn:Hk; simpl.
    + apply String.eqb_eq in Hk. split; auto.
    + apply String.eqb_neq in Hk. rewrite IH. split; [auto |].
      intros [H | H]; [contradiction | exact H].
Qed.

Lemma dict_mem_fresh {V} (k : string) (d : dict V) :
  ~ In k (dict_keys d) -> dict_mem k d = false.
Proof.
  intros H. destruct (dict_mem k d) eqn:Hm; [| reflexivity].
  now apply dict_mem_keys in Hm.
Qed.

Lemma nodup_app_fresh {X} (a b : list X) (x : X) :
  NoDup (a ++ b) -> In x b -> ~ In x a.
Proof.
  induction a as [| y a IH]; simpl; intros Hnd Hb Ha; [exact Ha |].
  inversion Hnd as [| ? ? Hy Hnd']; subst.
  destruct Ha as [-> | Ha].
  - apply Hy, in_or_app. now right.
  - exact (IH Hnd' Hb Ha).
Qed.

Lemma nodup_app_snoc {X} (a : list X) (x : X) :
  NoDup a -> ~ In x a -> NoDup (a ++ [x]).
Proof.
  induction a as [| y a IH]; simpl; intros Hnd Hx.
  - constructor; [tauto | constructor].
  - inversion Hnd as [| ? ? Hy Hnd']; subst. constructor.
    + intros Hin. apply in_app_or in Hin. destruct Hin as [Hin | [-> | []]].
      * exact (Hy Hin).
      * apply Hx. now left.
    + apply IH; [exact Hnd' | tauto].
Qed.

Lemma dict_keys_app {V} (a b : dict V) :
  dict_keys (a ++ b) = dict_keys a ++ dict_keys b.
Proof. apply map_app. Qed.

Section Model.
Variable py_int : string -> string + Z.

Lemma place_entry_keys (e : Element) :
  dict_keys (place_entry py_int e) = place_id_of e.
Proof.
  unfold dict_keys, place_entry. rewrite map_map. simpl. apply map_id.
Qed.

Lemma transition_entry_keys (e : Element) :
  dict_keys (transition_entry e) = transition_id_of e.
Proof.
  unfold dict_keys, transition_entry. rewrite map_map. simpl. apply map_id.
Qed.

Lemma place_entries_keys (l : list Element) :
  dict_keys (flat_map (place_entry py_int) l) = place_ids l.
Proof.
  unfold place_ids. induction l as [| e l IH]; [reflexivity |].
  simpl. now rewrite dict_keys_app, IH, place_entry_keys.
Qed.

Lemma transition_entries_keys (l : list Element) :
  dict_keys (flat_map transition_entry l) = transition_ids l.
Proof.
  unfold transition_ids. induction l as [| e l IH]; [reflexivity |].
  simpl. now rewrite dict_keys_app, IH, transition_entry_keys.
Qed.

Lemma extend_cons (s : PetriNet) (e : Element) (l : list Element) :
  extend py_int s (e :: l)
  = extend py_int
      (mkPetriNet (places s ++ place_entry py_int e)
                  (transitions s ++ transition_entry e)
                  (arcs s ++ arc_entry e)) l.
Proof. unfold extend. simpl. now rewrite !app_assoc. Qed.

Lemma extend_nil (s : PetriNet) : extend py_int s [] = s.
Proof. unfold extend. simpl. rewrite !app_nil_r. now destruct s. Qed.

(** A round that succeeds adds what the element declares, and the
    element declares nothing that is already there. *)
Lemma round_adds (e : Element) (s s' : PetriNet) :
  round py_int e s s' ->
  s' = mkPetriNet (places s ++ place_entry py_int e)
                  (transitions s ++ transition_entry e)
                  (arcs s ++ arc_entry e)
  /\ elem_ok py_int e = true
  /\ (forall pid, In pid (place_id_of e) -> dict_mem pid (places s) = false)
  /\ (forall tid, In tid (transition_id_of e) ->
                  dict_mem tid (transitions s) = false).
Proof.
  unfold place_entry, transition_entry, arc_entry, elem_ok,
    place_id_of, transition_id_of, elem_id, arc_of.
  intros [pid Hp Hid Hok Hm -> | tid Ht Hid Hok Hm ->
          | aid src tgt Ha Hid Hsrc Htgt -> | Hp Ht Ha ->].
  - rewrite Hp, Hid, Hok.
    destruct (has_tag "transition" e) eqn:Ht;
      [discriminate (has_tag_unique _ _ _ Hp Ht) |].
    destruct (has_tag "arc" e) eqn:Ha;
      [discriminate (has_tag_unique _ _ _ Hp Ha) |].
    simpl. rewrite !app_nil_r. repeat split; auto.
    + intros pid' [<- | []]. exact Hm.
    + intros tid [].
  - rewrite Ht, Hid, Hok.
    destruct (has_tag "place" e) eqn:Hp;
      [discriminate (has_tag_unique _ _ _ Hp Ht) |].
    destruct (has_tag "arc" e) eqn:Ha;
      [discriminate (has_tag_unique _ _ _ Ht Ha) |].
    simpl. rewrite !app_nil_r. repeat split; auto.
    + intros pid [].
    + intros tid' [<- | []]. exact Hm.
  - rewrite Ha, Hid, Hsrc, Htgt.
    destruct (has_tag "place" e) eqn:Hp;
      [discriminate (has_tag_unique _ _ _ Hp Ha) |].
    destruct (has_tag "transition" e) eqn:Ht;
      [discriminate (has_tag_unique _ _ _ Ht Ha) |].
    simpl. rewrite !app_nil_r. repeat split; auto; intros k [].
  - rewrite Hp, Ht, Ha. simpl. rewrite !app_nil_r.
    repeat split; auto; try (intros k []). now destruct s.
Qed.

(** The other way round: an element that is in order and declares
    nothing that is already there has a round that succeeds. *)
Lemma parse_elem_adds (e : Element) (s : PetriNet) :
  elem_ok py_int e = true ->
  (forall pid, In pid (place_id_of e) -> dict_mem pid (places s) = false) ->
  (forall tid, In tid (transition_id_of e) ->
               dict_mem tid (transitions s) = false) ->
  parse_elem py_int e s
  = Ok (tt, mkPetriNet (places s ++ place_entry py_int e)
                       (transitions s ++ transition_entry e)
                       (arcs s ++ arc_entry e)).
Proof.
  unfold place_entry, transition_entry, arc_entry, elem_ok,
    place_id_of, transition_id_of, elem_id, arc_of.
  intros Hok Hfp Hft.
  destruct (has_tag "place" e) eqn:Hp.
  - destruct (dict_get "id" (attrib e)) as [pid |] eqn:Hid; [| discriminate].
    destruct (has_tag "transition" e) eqn:Ht;
      [discriminate (has_tag_unique _ _ _ Hp Ht) |].
    destruct (has_tag "arc" e) eqn:Ha;
      [discriminate (has_tag_unique _ _ _ Hp Ha) |].
    simpl. rewrite !app_nil_r.
    apply parse_elem_place; auto. apply Hfp. now left.
  - destruct (has_tag "transition" e) eqn:Ht.
    + destruct (dict_get "id" (attrib e)) as [tid |] eqn:Hid;
        [| discriminate].
      destruct (has_tag "arc" e) eqn:Ha;
        [discriminate (has_tag_unique _ _ _ Ht Ha) |].
      simpl. rewrite !app_nil_r.
      unfold parse_elem, has_tag in *. rewrite Hp, Ht.
      unfold getitem. rewrite Hid.
      rewrite (bind_ok (ret tid) _ s s tid eq_refl).
      rewrite (bind_ok _ _ _ _ _ (transition_name_ok e s Hok)).
      unfold add_transition, bind, get, put. simpl.
      assert (dict_mem tid (transitions s) = false) as Hm
          by (apply Hft; now left).
      rewrite Hm. now rewrite (dict_set_absent _ _ _ Hm).
    + destruct (has_tag "arc" e) eqn:Ha.
      * destruct (dict_get "id" (attrib e)) as [aid |] eqn:Hid;
          [| discriminate].
        destruct (dict_get "source" (attrib e)) as [src |] eqn:Hsrc;
          [| discriminate].
        destruct (dict_get "target" (attrib e)) as [tgt |] eqn:Htgt;
          [| discriminate].
        simpl. rewrite !app_nil_r.
        unfold parse_elem, has_tag in *. rewrite Hp, Ht, Ha.
        unfold getitem. rewrite Hid, Hsrc, Htgt. reflexivity.
      * simpl. rewrite !app_nil_r.
        unfold parse_elem, has_tag in *. rewrite Hp, Ht, Ha.
        now destruct s.
Qed.

End Model.

Lemma place_id_of_cases (e : Element) :
  place_id_of e = [] \/ exists pid, place_id_of e = [pid].
Proof.
  unfold place_id_of. destruct (has_tag "place" e); [| now left].
  destruct (elem_id e) as [pid |]; [right; now exists pid | now left].
Qed.

Lemma transition_id_of_cases (e : Element) :
  transition_id_of e = [] \/ exists tid, transition_id_of e = [tid].
Proof.
  unfold transition_id_of. destruct (has_tag "transition" e); [| now left].
  destruct (elem_id e) as [tid |]; [right; now exists tid | now left].
Qed.

Section ModelLoop.
Variable py_int : string -> string + Z.

Lemma run_model (l : list Element) :
  forall s s' u,
    for_each l (parse_elem py_int) s = Ok (u, s') ->
    s' = extend py_int s l
    /\ forallb (elem_ok py_int) l = true
    /\ (NoDup (dict_keys (places s)) ->
        NoDup (dict_keys (places s) ++ place_ids l))
    /\ (NoDup (dict_keys (transitions s)) ->
        NoDup (dict_keys (transitions s) ++ transition_ids l)).
Proof.
  induction l as [| e l IH]; intros s s' u H.
  - inversion H. rewrite extend_nil. simpl. rewrite !app_nil_r. auto.
  - apply for_each_cons_inv in H. destruct H as (s1 & Hx & Hl).
    apply parse_elem_inv, round_adds in Hx.
    destruct Hx as (Hs1 & Hok & Hfp & Hft).
    destruct (IH _ _ _ Hl) as (Hs' & Hoks & Hnp & Hnt).
    rewrite Hs1 in Hs', Hnp, Hnt. simpl in Hnp, Hnt.
    rewrite dict_keys_app, place_entry_keys in Hnp.
    rewrite dict_keys_app, transition_entry_keys in Hnt.
    split; [now rewrite extend_cons | split; [| split]].
    + simpl. now rewrite Hok, Hoks.
    + intros Hnd. unfold place_ids in *. simpl. rewrite app_assoc.
      apply Hnp.
      destruct (place_id_of_cases e) as [Hnil | (pid & Hpid)].
      * now rewrite Hnil, app_nil_r.
      * rewrite Hpid in *. apply nodup_app_snoc; [exact Hnd |].
        intros Hin. apply dict_mem_keys in Hin.
        rewrite (Hfp pid (or_introl eq_refl)) in Hin. discriminate.
    + intros Hnd. unfold transition_ids in *. simpl. rewrite app_assoc.
      apply Hnt.
      destruct (transition_id_of_cases e) as [Hnil | (tid & Htid)].
      * now rewrite Hnil, app_nil_r.
      * rewrite Htid in *. apply nodup_app_snoc; [exact Hnd |].
        intros Hin. apply dict_mem_keys in Hin.
        rewrite (Hft tid (or_introl eq_refl)) in Hin. discriminate.
Qed.

Lemma run_model_back (l : list Element) :
  forall s,
    forallb (elem_ok py_int) l = true ->
    NoDup (dict_keys (places s) ++ place_ids l) ->
    NoDup (dict_keys (transitions s) ++ transition_ids l) ->
    for_each l (parse_elem py_int) s = Ok (tt, extend py_int s l).
Proof.
  induction l as [| e l IH]; intros s Hok Hnp Hnt.
  - now rewrite extend_nil.
  - simpl in Hok. apply andb_true_iff in Hok. destruct Hok as [Hok Hoks].
    unfold place_ids, transition_ids in Hnp, Hnt. simpl in Hnp, Hnt.
    assert (parse_elem py_int e s
            = Ok (tt, mkPetriNet (places s ++ place_entry py_int e)
                                 (transitions s ++ transition_entry e)
                                 (arcs s ++ arc_entry e))) as Hstep.
    { apply parse_elem_adds; [exact Hok | |].
      - intros pid Hpid. apply dict_mem_fresh.
        apply (nodup_app_fresh _ _ pid Hnp), in_or_app. now left.
      - intros tid Htid. apply dict_mem_fresh.
        apply (nodup_app_fresh _ _ tid Hnt), in_or_app. now left. }
    unfold for_each. simpl. rewrite (bind_ok _ _ _ _ _ Hstep).
    rewrite extend_cons. apply IH; [exact Hoks | |]; simpl.
    + rewrite dict_keys_app, place_entry_keys, <- app_assoc. exact Hnp.
    + rewrite dict_keys_app, transition_entry_keys, <- app_assoc. exact Hnt.
Qed.

End ModelLoop.

(** X1 -- The parse succeeds exactly on the documents without
    construction defect: every place and transition element has an
    [id] and readable "text" elements, every arc element has [id],
    [source] and [target], and no identifier is declared twice among
    the places or among the transitions.  The model returned then holds
    the entries of the elements in document order. *)
Theorem parse_pnml_characterised (py_int : string -> string + Z)
        (root : Element) (net : PetriNet) :
  parse_pnml py_int root = Ok net <->
  well_formed py_int root /\ net = model_of py_int root.
Proof.
  rewrite parse_pnml_ok. unfold well_formed, model_of. split.
  - intros H. apply run_model in H.
    destruct H as (Hnet & Hok & Hnp & Hnt). simpl in Hnp, Hnt.
    repeat split; auto; [apply Hnp | apply Hnt]; constructor.
  - intros ((Hok & Hnp & Hnt) & ->).
    now apply run_model_back.
Qed.

Section ParsedModel.
Variable py_int : string -> string + Z.

Lemma parse_model (root : Element) (net : PetriNet) :
  parse_pnml py_int root = Ok net ->
  net = model_of py_int root
  /\ forallb (elem_ok py_int) (iter root) = true
  /\ NoDup (place_ids (iter root))
  /\ NoDup (transition_ids (iter root)).
Proof.
  intros H. apply parse_pnml_ok, run_model in H.
  destruct H as (Hnet & Hok & Hnp & Hnt). simpl in Hnp, Hnt.
  repeat split; auto; [apply Hnp | apply Hnt]; constructor.
Qed.

Lemma elem_ok_arc (e : Element) :
  elem_ok py_int e = true -> has_tag "arc" e = true ->
  exists a, arc_of e = Some a.
Proof.
  unfold elem_ok. intros Hok Ha.
  destruct (has_tag "place" e) eqn:Hp;
    [discriminate (has_tag_unique _ _ _ Hp Ha) |].
  destruct (has_tag "transition" e) eqn:Ht;
    [discriminate (has_tag_unique _ _ _ Ht Ha) |].
  rewrite Ha in Hok. destruct (arc_of e) as [a |]; [now exists a |].
  discriminate.
Qed.

Lemma elem_ok_place (e : Element) :
  elem_ok py_int e = true -> has_tag "place" e = true ->
  exists pid, elem_id e = Some pid.
Proof.
  unfold elem_ok. intros Hok Hp. rewrite Hp in Hok.
  destruct (elem_id e) as [pid |]; [now exists pid | discriminate].
Qed.

Lemma elem_ok_transition (e : Element) :
  elem_ok py_int e = true -> has_tag "transition" e = true ->
  (exists tid, elem_id e = Some tid) /\ transition_ok e = true.
Proof.
  unfold elem_ok. intros Hok Ht.
  destruct (has_tag "place" e) eqn:Hp;
    [discriminate (has_tag_unique _ _ _ Hp Ht) |].
  rewrite Ht in Hok.
  destruct (elem_id e) as [tid |]; [| discriminate].
  split; [now exists tid | exact Hok].
Qed.

Lemma arcs_in_order (l : list Element) :
  forallb (elem_ok py_int) l = true ->
  map Some (flat_map arc_entry l) = map arc_of (filter (has_tag "arc") l).
Proof.
  induction l as [| e l IH]; [reflexivity |].
  cbn [flat_map filter forallb]. intros Hok.
  apply andb_true_iff in Hok. destruct Hok as [He Hl].
  rewrite map_app, (IH Hl). unfold arc_entry.
  destruct (has_tag "arc" e) eqn:Ha; [| reflexivity].
  destruct (elem_ok_arc e He Ha) as (a & Harc).
  cbn [map app]. now rewrite Harc.
Qed.

Lemma place_ids_in_order (l : list Element) :
  forallb (elem_ok py_int) l = true ->
  map Some (place_ids l) = map elem_id (filter (has_tag "place") l).
Proof.
  unfold place_ids. induction l as [| e l IH]; [reflexivity |].
  cbn [flat_map filter forallb]. intros Hok.
  apply andb_true_iff in Hok. destruct Hok as [He Hl].
  rewrite map_app, (IH Hl). unfold place_id_of.
  destruct (has_tag "place" e) eqn:Hp; [| reflexivity].
  destruct (elem_ok_place e He Hp) as (pid & Hid).
  cbn [map app]. now rewrite Hid.
Qed.

Lemma transition_ids_in_order (l : list Element) :
  forallb (elem_ok py_int) l = true ->
  map Some (transition_ids l)
  = map elem_id (filter (has_tag "transition") l).
Proof.
  unfold transition_ids. induction l as [| e l IH]; [reflexivity |].
  cbn [flat_map filter forallb]. intros Hok.
  apply andb_true_iff in Hok. destruct Hok as [He Hl].
  rewrite map_app, (IH Hl). unfold transition_id_of.
  destruct (has_tag "transition" e) eqn:Ht; [| reflexivity].
  destruct (elem_ok_transition e He Ht) as ((tid & Hid) & _).
  cbn [map app]. now rewrite Hid.
Qed.

Lemma place_entries_keyed (l : list Element) :
  Forall (fun kv => place_id (snd kv) = fst kv)
         (flat_map (place_entry py_int) l).
Proof.
  induction l as [| e l IH]; [constructor |].
  simpl. apply Forall_app. split; [| exact IH].
  unfold place_entry. apply Forall_forall. intros kv Hin.
  apply in_map_iff in Hin. destruct Hin as (pid & <- & _). reflexivity.
Qed.

Lemma transition_entries_keyed (l : list Element) :
  Forall (fun kv => transition_id (snd kv) = fst kv)
         (flat_map transition_entry l).
Proof.
  induction l as [| e l IH]; [constructor |].
  simpl. apply Forall_app. split; [| exact IH].
  unfold transition_entry. apply Forall_forall. intros kv Hin.
  apply in_map_iff in Hin. destruct Hin as (tid & <- & _). reflexivity.
Qed.

End ParsedModel.

(** X2 -- The arc sequence of a parsed document holds one arc per
    "arc" element, in document order and with the element's [id],
    [source] and [target]; arcs with equal attributes are all kept. *)
Theorem parsed_arcs_in_document_order (py_int : string -> string + Z)
        (root : Element) (net : PetriNet) :
  parse_pnml py_int root = Ok net ->
  map Some (arcs net) = map arc_of (filter (has_tag "arc") (iter root)).
Proof.
  intros H. apply parse_model in H. destruct H as (-> & Hok & _).
  simpl. now apply (arcs_in_order py_int).
Qed.

Lemma parsed_arcs_in_document_order_witness :
  map Some [mkArc "a1" "p1" "p2"]
  = map arc_of (filter (has_tag "arc") (iter docB)).
Proof.
  apply (parsed_arcs_in_document_order int_decimal docB
           (mkPetriNet [("p1", mkPlace "p1" (Some "start") 1);
                        ("p2", mkPlace "p2" None 3)]
                       [] [mkArc "a1" "p1" "p2"])).
  reflexivity.
Defined.

(** X3 -- In a parsed model the keys of the place mapping are the [id]
    attributes of the "place" elements in document order, no key occurs
    twice and every place is stored under its own identifier; the same
    holds for the transitions. *)
Theorem parsed_keys (py_int : string -> string + Z)
        (root : Element) (net : PetriNet) :
  parse_pnml py_int root = Ok net ->
  map Some (dict_keys (places net))
  = map elem_id (filter (has_tag "place") (iter root))
  /\ map Some (dict_keys (transitions net))
     = map elem_id (filter (has_tag "transition") (iter root))
  /\ NoDup (dict_keys (places net))
  /\ NoDup (dict_keys (transitions net))
  /\ Forall (fun kv => place_id (snd kv) = fst kv) (places net)
  /\ Forall (fun kv => transition_id (snd kv) = fst kv) (transitions net).
Proof.
  intros H. apply parse_model in H. destruct H as (-> & Hok & Hnp & Hnt).
  simpl. rewrite place_entries_keys, transition_entries_keys.
  split; [| split; [| split; [| split; [| split]]]].
  - now apply (place_ids_in_order py_int).
  - now apply (transition_ids_in_order py_int).
  - exact Hnp.
  - exact Hnt.
  - apply place_entries_keyed.
  - apply transition_entries_keyed.
Qed.

Lemma parsed_keys_witness :
  map Some (dict_keys [("p1", mkPlace "p1" (Some "start") 1);
                       ("p2", mkPlace "p2" None 3)])
  = map elem_id (filter (has_tag "place") (iter docB)).
Proof.
  apply (parsed_keys int_decimal docB
           (mkPetriNet [("p1", mkPlace "p1" (Some "start") 1);
                        ("p2", mkPlace "p2" None 3)]
                       [] [mkArc "a1" "p1" "p2"])).
  reflexivity.
Defined.

(** ** The name of a transition *)

Lemma run_transitions (py_int : string -> string + Z)
      (l : list Element) (e : Element) :
  In e l -> has_tag "transition" e = true ->
  forall s s' u,
    for_each l (parse_elem py_int) s = Ok (u, s') ->
    exists tid,
      elem_id e = Some tid
      /\ transition_ok e = true
      /\ dict_get tid (transitions s') = Some (transition_of e tid).
Proof.
  intros Hin Ht.
  induction l as [| x l IH]; intros s s' u H.
  - destruct Hin.
  - apply for_each_cons_inv in H. destruct H as (s1 & Hx & Hl).
    destruct Hin as [-> | Hin].
    + apply parse_elem_inv in Hx.
      destruct (run_extends _ _ _ _ _ Hl) as (_ & (d & Hd) & _).
      destruct Hx as [pid Hp _ _ _ _ | tid _ Hid Hok Hm ->
                      | aid src tgt Ha _ _ _ _ | _ Ht' _ _].
      * discriminate (has_tag_unique _ _ _ Hp Ht).
      * exists tid. repeat split; auto. rewrite Hd. simpl.
        apply dict_get_app_l. now apply dict_get_app_new.
      * discriminate (has_tag_unique _ _ _ Ht Ha).
      * congruence.
    + now apply (IH Hin s1 s' u).
Qed.

(** X4 -- A transition element of a parsed document is in the
    transition mapping under its [id], and its name is the trimmed text
    of the last "text" element at or below it, at any depth and with or
    without a "name" element around it; without such an element the
    transition has no name. *)
Theorem transition_name_lookup (py_int : string -> string + Z)
        (root e : Element) (net : PetriNet) :
  parse_pnml py_int root = Ok net ->
  In e (iter root) -> has_tag "transition" e = true ->
  exists t,
    elem_id e = Some (transition_id t)
    /\ dict_get (transition_id t) (transitions net) = Some t
    /\ (filter is_text (iter e) = [] -> transition_name t = None)
    /\ (forall ts x,
           filter is_text (iter e) = ts ++ [x] ->
           exists str, text x = Some str
                       /\ transition_name t = Some (PyStr.strip str)).
Proof.
  intros H Hin Ht. apply parse_pnml_ok in H.
  destruct (run_transitions py_int _ e Hin Ht _ _ _ H)
    as (tid & Hid & Hok & Hget).
  exists (transition_of e tid).
  split; [exact Hid | split; [exact Hget | split]];
    unfold transition_of; simpl; rewrite fold_name_step_filter.
  - intros Hnil. now rewrite Hnil.
  - intros ts x Hts.
    assert (In x (filter is_text (iter e))) as Hx
        by (rewrite Hts; apply in_or_app; right; now left).
    apply filter_In in Hx. destruct Hx as [Hx Htext].
    unfold transition_ok in Hok. rewrite forallb_forall in Hok.
    specialize (Hok x Hx). unfold text_ok in Hok. rewrite Htext in Hok.
    destruct (text x) as [str |] eqn:Hstr; [| discriminate].
    exists str. split; [reflexivity |].
    rewrite Hts. now apply fold_name_step_last.
Qed.

Lemma transition_name_lookup_witness :
  exists t,
    elem_id (Elem "transition" [("id", "t1")] None
               [Elem "label" [] None [text_elem " fire "]])
    = Some (transition_id t)
    /\ dict_get (transition_id t) [("t1", mkTransition "t1" (Some "fire"))]
       = Some t
    /\ transition_name t = Some "fire".
Proof.
  destruct (transition_name_lookup int_decimal
              (Elem "pnml" [] None
                 [Elem "transition" [("id", "t1")] None
                    [Elem "label" [] None [text_elem " fire "]]])
              (Elem "transition" [("id", "t1")] None
                 [Elem "label" [] None [text_elem " fire "]])
              (mkPetriNet [] [("t1", mkTransition "t1" (Some "fire"))] []))
    as (t & Hid & Hget & _ & Hlast).
  - reflexivity.
  - simpl. auto.
  - reflexivity.
  - exists t. split; [exact Hid | split; [exact Hget |]].
    destruct (Hlast [] (text_elem " fire ") eq_refl) as (str & Hstr & Hname).
    inversion Hstr. subst str. exact Hname.
Defined.

(** ** The report *)

Lemma marked_line_eq (p : Place) (out : list string) (s : PetriNet) :
  marked_line p out s
  = Ok (out ++ (if Z.eqb (initial_marking p) 1
                then [(" - " ++ place_id p ++ " ("
                       ++ format_name (place_name p) ++ ")")%string]
                else []), s).
Proof.
  unfold marked_line, ret. destruct (Z.eqb (initial_marking p) 1).
  - reflexivity.
  - now rewrite app_nil_r.
Qed.

Lemma flat_map_filter_map {X Y} (c : X -> bool) (g : X -> Y) (l : list X) :
  flat_map (fun x => if c x then [g x] else []) l = map g (filter c l).
Proof.
  induction l as [| x l IH]; [reflexivity |].
  simpl. destruct (c x); simpl; now rewrite IH.
Qed.

(** The report of a model, without recourse to the loops. *)
Lemma summary_eq (net : PetriNet) :
  summary net
  = Ok (report_header net ++ marked_lines net
        ++ findings_lines (flat_map (arc_errors net) (arcs net))
                          (flat_map place_warnings
                                    (dict_values (places net))),
        net).
Proof.
  unfold summary. rewrite (bind_ok get _ net net net eq_refl).
  rewrite (bind_ok _ _ net net (report_header net ++ marked_lines net)).
  - rewrite (bind_ok _ _ _ _ _ (check_consistency_eq net)).
    unfold findings_lines, ret.
    destruct (flat_map (arc_errors net) (arcs net)) as [| e1 errs];
      destruct (flat_map place_warnings (dict_values (places net)))
        as [| w1 warns];
      cbn [app]; rewrite <- ?app_assoc; reflexivity.
  - rewrite (for_fold_pure
               (fun out p =>
                  out ++ (if Z.eqb (initial_marking p) 1
                          then [(" - " ++ place_id p ++ " ("
                                 ++ format_name (place_name p) ++ ")")%string]
                          else []))).
    + rewrite fold_left_collect. unfold marked_lines.
      now rewrite flat_map_filter_map.
    + intros p _ out s. apply marked_line_eq.
Qed.

Lemma str_append_nil_r (a : string) : (a ++ EmptyString)%string = a.
Proof. induction a as [| c a IH]; simpl; [reflexivity | now rewrite IH]. Qed.

Lemma str_append_assoc (a b c : string) :
  (a ++ (b ++ c))%string = ((a ++ b) ++ c)%string.
Proof. induction a as [| x a IH]; simpl; [reflexivity | now rewrite IH]. Qed.

Lemma print_items_head (items : list string) :
  forall head, exists rest,
    print_items head items = (head ++ rest)%string.
Proof.
  unfold print_items. induction items as [| x items IH]; intros head.
  - exists EmptyString. simpl. symmetry. apply str_append_nil_r.
  - cbn [fold_left].
    destruct (IH (head ++ String "010" "  " ++ x)%string) as (r & Hr).
    exists ((String "010" "  " ++ x) ++ r)%string. rewrite Hr.
    now rewrite <- !str_append_assoc.
Qed.

(** X5 -- The report never raises and leaves the model as it was.  It
    prints the title and the three counts, then one line for every
    place with marking 1 in the order of the place mapping, then the
    errors when there are any, the warnings when there are any, and the
    all-clear line exactly when there is neither. *)
Theorem summary_report (net : PetriNet) :
  exists errors warnings,
    check_consistency net = Ok ((errors, warnings), net)
    /\ summary net
       = Ok (report_header net ++ marked_lines net
             ++ findings_lines errors warnings, net)
    /\ List.length (marked_lines net)
       = List.length (filter (fun p => Z.eqb (initial_marking p) 1)
                             (dict_values (places net)))
    /\ (In (String "010" "No errors or warnings detected.")
           (findings_lines errors warnings)
        <-> errors = [] /\ warnings = []).
Proof.
  exists (flat_map (arc_errors net) (arcs net)),
         (flat_map place_warnings (dict_values (places net))).
  split; [apply check_consistency_eq | split; [apply summary_eq | split]].
  - unfold marked_lines. apply length_map.
  - unfold findings_lines.
    destruct (flat_map (arc_errors net) (arcs net)) as [| e1 errs];
      destruct (flat_map place_warnings (dict_values (places net)))
        as [| w1 warns]; cbn [app In].
    + split; auto.
    + destruct (print_items_head (w1 :: warns) (String "010" "Warnings:"))
        as (r & ->).
      split; [intros [H | []]; discriminate H | intros [_ H]; discriminate H].
    + destruct (print_items_head (e1 :: errs) (String "010" "Errors:"))
        as (r & ->).
      split; [intros [H | []]; discriminate H | intros [H _]; discriminate H].
    + destruct (print_items_head (e1 :: errs) (String "010" "Errors:"))
        as (r & ->).
      destruct (print_items_head (w1 :: warns) (String "010" "Warnings:"))
        as (r' & ->).
      split; [intros [H | [H | []]]; discriminate H
             | intros [H _]; discriminate H].
Qed.

(** ** The exceptions of the parser *)




Section Exceptions.
Variable py_int : string -> string + Z.






End Exceptions.





(** ** Findings of the validator *)

Lemma flat_map_nil {X Y} (g : X -> list Y) (l : list X) :
  flat_map g l = [] <-> forall x, In x l -> g x = [].
Proof.
  induction l as [| x l IH]; simpl.
  - split; [intros _ y [] | reflexivity].
  - split.
    + intros H. apply app_eq_nil in H. destruct H as [Hx Hl].
      intros y [<- | Hy]; [exact Hx | now apply IH].
    + intros H. rewrite (H x (or_introl eq_refl)). simpl.
      apply IH. intros y Hy. apply H. now right.
Qed.

Lemma flat_map_length_le {X Y} (g : X -> list Y) (n : nat) (l : list X) :
  (forall x, List.length (g x) <= n) ->
  List.length (flat_map g l) <= n * List.length l.
Proof.
  intros H. induction l as [| x l IH]; simpl; [lia |].
  rewrite length_app. specialize (H x). lia.
Qed.

Lemma undeclared_declared (net : PetriNet) (k : string) :
  undeclared net k = negb (declared net k).
Proof. unfold undeclared, declared. now rewrite negb_orb. Qed.

Lemma arc_errors_nil (net : PetriNet) (a : Arc) :
  arc_errors net a = [] <->
  declared net (source a) = true /\ declared net (target a) = true.
Proof.
  unfold arc_errors. rewrite !undeclared_declared.
  destruct (declared net (source a)), (declared net (target a)); simpl;
    split; try tauto; try discriminate; intros [H1 H2]; discriminate.
Qed.

Lemma place_warnings_nil (p : Place) :
  place_warnings p = [] <->
  initial_marking p = 0%Z \/ initial_marking p = 1%Z.
Proof.
  unfold place_warnings.
  destruct (Z.eq_dec (initial_marking p) 0) as [H0 | H0];
    [| destruct (Z.eq_dec (initial_marking p) 1) as [H1 | H1]].
  - split; auto.
  - split; auto.
  - split; [discriminate | tauto].
Qed.

(** X8 -- The validator reports no error exactly when the source and
    the target of every arc are keys of the place or of the transition
    mapping, and no warning exactly when every place has marking 0 or
    1; it reports at most two errors per arc and one warning per
    place. *)
Theorem validator_findings (net : PetriNet) :
  exists errors warnings,
    check_consistency net = Ok ((errors, warnings), net)
    /\ (errors = [] <->
        forall a, In a (arcs net) ->
                  declared net (source a) = true
                  /\ declared net (target a) = true)
    /\ (warnings = [] <->
        forall p, In p (dict_values (places net)) ->
                  initial_marking p = 0%Z \/ initial_marking p = 1%Z)
    /\ List.length errors <= 2 * List.length (arcs net)
    /\ List.length warnings <= List.length (places net).
Proof.
  exists (flat_map (arc_errors net) (arcs net)),
         (flat_map place_warnings (dict_values (places net))).
  split; [apply check_consistency_eq | split; [| split; [| split]]].
  - rewrite flat_map_nil. split; intros H a Ha; apply arc_errors_nil; auto.
  - rewrite flat_map_nil. split; intros H p Hp; apply place_warnings_nil; auto.
  - apply flat_map_length_le. intros a. unfold arc_errors.
    destruct (undeclared net (source a)), (undeclared net (target a));
      simpl; lia.
  - replace (List.length (places net))
      with (1 * List.length (dict_values (places net)))
      by (unfold dict_values; rewrite length_map; lia).
    apply flat_map_length_le. intros p. unfold place_warnings.
    destruct (Z.eq_dec (initial_marking p) 0);
      [| destruct (Z.eq_dec (initial_marking p) 1)]; simpl; lia.
Qed.

(** ** The errors of a parsed document *)







(** ** Elements that the parser does not know *)

(** X10 -- An element around the document whose resolved tag is none
    of "place", "transition" and "arc" changes nothing: the parse of
    the wrapped document has the outcome of the parse of the document
    itself, whatever the attributes and the text of the wrapper. *)
Theorem unknown_wrapper_ignored (py_int : string -> string + Z)
        (t : string) (a : dict string) (x : option string)
        (root : Element) :
  has_tag "place" (Elem t a x [root]) = false ->
  has_tag "transition" (Elem t a x [root]) = false ->
  has_tag "arc" (Elem t a x [root]) = false ->
  parse_pnml py_int (Elem t a x [root]) = parse_pnml py_int root.
Proof.
  unfold has_tag. cbn [tag]. intros Hp Ht Ha.
  unfold parse_pnml, for_each.
  change (iter (Elem t a x [root]))
    with (Elem t a x [root] :: (iter root ++ [])).
  rewrite app_nil_r. cbn [for_fold].
  assert (parse_elem py_int (Elem t a x [root]) PetriNet_init
          = Ok (tt, PetriNet_init)) as Hstep.
  { unfold parse_elem. cbn [tag]. now rewrite Hp, Ht, Ha. }
  now rewrite (bind_ok _ _ _ _ _ Hstep).
Qed.

Lemma unknown_wrapper_ignored_witness :
  parse_pnml int_decimal
             (Elem "{urn:x}pnml" [("id", "doc")] (Some "text") [docB])
  = parse_pnml int_decimal docB.
Proof.
  apply (unknown_wrapper_ignored int_decimal); reflexivity.
Defined.

(** ** Adding to the model *)

Lemma dict_get_app_other {V} (k k' : string) (v : V) (d : dict V) :
  k <> k' -> dict_get k (d ++ [(k', v)]) = dict_get k d.
Proof.
  intros Hne. induction d as [| [k0 v0] d IH]; simpl.
  - destruct (String.eqb k' k) eqn:Hk; [| reflexivity].
    apply String.eqb_eq in Hk. congruence.
  - now rewrite IH.
Qed.

Lemma dict_mem_false_get {V} (k : string) (d : dict V) :
  dict_mem k d = false -> dict_get k d = None.
Proof.
  intros H. destruct (dict_get k d) as [v |] eqn:Hg; [| reflexivity].
  assert (dict_mem k d = true) by (apply dict_mem_get; now exists v).
  congruence.
Qed.

(** X11 -- A place that was added is found under its identifier, which
    was free before; the entries under other identifiers, the
    transitions and the arcs stay as they were.  An arc is added at the
    end of the sequence whatever its identifier and its endpoints, also
    when an arc with the same identifier is there already. *)
Theorem add_place_lookup (p : Place) (s s' : PetriNet) :
  add_place p s = Ok (tt, s') ->
  dict_get (place_id p) (places s) = None
  /\ dict_get (place_id p) (places s') = Some p
  /\ (forall k, k <> place_id p ->
                dict_get k (places s') = dict_get k (places s))
  /\ transitions s' = transitions s
  /\ arcs s' = arcs s
  /\ (forall a, add_arc a s'
                = Ok (tt, mkPetriNet (places s') (transitions s')
                                     (arcs s' ++ [a]))).
Proof.
  intros H. apply add_place_inv in H. destruct H as [Hm ->]. simpl.
  split; [now apply dict_mem_false_get | split; [| split; [| auto]]].
  - now apply dict_get_app_new.
  - intros k Hk. now apply dict_get_app_other.
Qed.

Lemma add_place_lookup_witness :
  dict_get "p2" [("p1", mkPlace "p1" None 0)] = None
  /\ dict_get "p2" [("p1", mkPlace "p1" None 0);
                    ("p2", mkPlace "p2" (Some "b") 4)]
     = Some (mkPlace "p2" (Some "b") 4).
Proof.
  destruct (add_place_lookup
              (mkPlace "p2" (Some "b") 4)
              (mkPetriNet [("p1", mkPlace "p1" None 0)] [] [])
              (mkPetriNet [("p1", mkPlace "p1" None 0);
                           ("p2", mkPlace "p2" (Some "b") 4)] [] [])
              eq_refl) as (Hfree & Hfound & _).
  split; [exact Hfree | exact Hfound].
Defined.

(** X12 -- The same for a transition: it is found under its
    identifier, which was free before, and the other entries, the
    places and the arcs stay as they were. *)
Theorem add_transition_lookup (t : Transition) (s s' : PetriNet) :
  add_transition t s = Ok (tt, s') ->
  dict_get (transition_id t) (transitions s) = None
  /\ dict_get (transition_id t) (transitions s') = Some t
  /\ (forall k, k <> transition_id t ->
                dict_get k (transitions s') = dict_get k (transitions s))
  /\ places s' = places s
  /\ arcs s' = arcs s.
Proof.
  intros H. apply add_transition_inv in H. destruct H as [Hm ->]. simpl.
  split; [now apply dict_mem_false_get | split; [| split; [| auto]]].
  - now apply dict_get_app_new.
  - intros k Hk. now apply dict_get_app_other.
Qed.

Lemma add_transition_lookup_witness :
  dict_get "t1" (transitions (mkPetriNet [("t1", mkPlace "t1" None 0)]
                                         [] []))
  = None
  /\ dict_get "t1" [("t1", mkTransition "t1" None)]
     = Some (mkTransition "t1" None).
Proof.
  destruct (add_transition_lookup
              (mkTransition "t1" None)
              (mkPetriNet [("t1", mkPlace "t1" None 0)] [] [])
              (mkPetriNet [("t1", mkPlace "t1" None 0)]
                          [("t1", mkTransition "t1" None)] [])
              eq_refl) as (Hfree & Hfound & _).
  split; [exact Hfree | exact Hfound].
Defined.

(** ** The tag resolver, once more *)

(** X13 -- [strip_ns] cuts a tag after its first closing brace,
    whether or not the tag begins with an opening brace, and keeps
    everything behind it, later braces included. *)
Theorem strip_ns_first_brace (tag : string) :
  PyStr.contains "}" tag = true ->
  exists before,
    tag = (before ++ String "}" (strip_ns tag))%string
    /\ PyStr.contains "}" before = false.
Proof.
  intros H. destruct (split1_present tag H) as (u & l & Htag & Hu & Hs).
  exists u. unfold strip_ns. rewrite H, Hs. simpl. auto.
Qed.

Lemma strip_ns_first_brace_witness :
  exists before,
    "a}b}c" = (before ++ String "}" (strip_ns "a}b}c"))%string
    /\ PyStr.contains "}" before = false.
Proof.
  apply (strip_ns_first_brace "a}b}c"). reflexivity.
Defined.
